(** * Quadcopter simulator ([sim_hw.py]): quaternion algebra, integrator and
    cascaded controller.

    Numbers.  The program computes on numpy [float64] arrays.  The model
    computes on the real numbers [R]: every arithmetic operation of the source
    is the corresponding exact operation.  What floating point adds to the
    reals and the program can reach is kept in the result type [outcome]:
    a Python exception ([Raises]) and a division of a vector by its own zero
    norm, which numpy does not turn into an exception but into NaN entries
    ([NonFinite]).  A computation is followed as long as its values are
    finite; what the program goes on to do with NaN entries is not modelled.

    Layout.  The 13-element state array is the record [State]; its four fields
    are the four slices [state[0:3]], [state[3:6]], [state[6:10]] and
    [state[10:13]] that the source takes with its [IDX_*] constants. *)

From Stdlib Require Import Reals Lra Lia List.
Import ListNotations.

Local Open Scope R_scope.

(** ** Outcomes of a call *)

Inductive exn : Type :=
| ValueError          (* scipy: zero-norm quaternion given to Rotation.from_quat *)
| ZeroDivisionError   (* Python float division 1 / 0.0 *)
| AttributeError      (* attribute read before it was ever assigned *)
| LinAlgError.        (* numpy.linalg.inv on a singular matrix *)

Inductive outcome (A : Type) : Type :=
| Returns (a : A)     (* the call returns [a], all entries finite *)
| NonFinite           (* the call returns, with NaN entries (numpy warns) *)
| Raises (e : exn).   (* the call raises [e] *)

Arguments Returns {A} a.
Arguments NonFinite {A}.
Arguments Raises {A} e.

Definition bind {A B : Type} (c : outcome A) (k : A -> outcome B) : outcome B :=
  match c with
  | Returns a => k a
  | NonFinite => NonFinite
  | Raises e => Raises e
  end.

Definition omap {A B : Type} (f : A -> B) (c : outcome A) : outcome B :=
  bind c (fun a => Returns (f a)).

Declare Scope outcome_scope.
Delimit Scope outcome_scope with outcome.
Notation "x <- c ;; k" := (bind c (fun x => k))
  (at level 61, c at next level, right associativity) : outcome_scope.
Local Open Scope outcome_scope.

(** ** Vectors *)

Definition vec3 : Type := (R * R * R)%type.
Definition vec4 : Type := (R * R * R * R)%type.
Definition mat3 : Type := (vec3 * vec3 * vec3)%type.   (* three rows *)
Definition mat4 : Type := (vec4 * vec4 * vec4 * vec4)%type. (* four rows *)

Module V3.
Definition add (u v : vec3) : vec3 :=
  let '(u0, u1, u2) := u in let '(v0, v1, v2) := v in
  (u0 + v0, u1 + v1, u2 + v2).
Definition sub (u v : vec3) : vec3 :=
  let '(u0, u1, u2) := u in let '(v0, v1, v2) := v in
  (u0 - v0, u1 - v1, u2 - v2).
Definition scale (k : R) (v : vec3) : vec3 :=
  let '(v0, v1, v2) := v in (k * v0, k * v1, k * v2).
(* [v * k] and [v / k] of numpy, the scalar on the right *)
Definition scale_r (v : vec3) (k : R) : vec3 :=
  let '(v0, v1, v2) := v in (v0 * k, v1 * k, v2 * k).
Definition div (v : vec3) (k : R) : vec3 :=
  let '(v0, v1, v2) := v in (v0 / k, v1 / k, v2 / k).
Definition neg (v : vec3) : vec3 :=
  let '(v0, v1, v2) := v in (- v0, - v1, - v2).
(* np.dot *)
Definition dot (u v : vec3) : R :=
  let '(u0, u1, u2) := u in let '(v0, v1, v2) := v in
  u0 * v0 + u1 * v1 + u2 * v2.
(* np.cross *)
Definition cross (u v : vec3) : vec3 :=
  let '(u0, u1, u2) := u in let '(v0, v1, v2) := v in
  (u1 * v2 - u2 * v1, u2 * v0 - u0 * v2, u0 * v1 - u1 * v0).
(* np.linalg.norm *)
Definition norm (v : vec3) : R := sqrt (dot v v).
Definition zero : vec3 := (0, 0, 0).
(* [v[2]] *)
Definition z (v : vec3) : R := let '(_, _, v2) := v in v2.
End V3.

Module V4.
Definition add (u v : vec4) : vec4 :=
  let '(u0, u1, u2, u3) := u in let '(v0, v1, v2, v3) := v in
  (u0 + v0, u1 + v1, u2 + v2, u3 + v3).
Definition scale (k : R) (v : vec4) : vec4 :=
  let '(v0, v1, v2, v3) := v in (k * v0, k * v1, k * v2, k * v3).
Definition scale_r (v : vec4) (k : R) : vec4 :=
  let '(v0, v1, v2, v3) := v in (v0 * k, v1 * k, v2 * k, v3 * k).
Definition div (v : vec4) (k : R) : vec4 :=
  let '(v0, v1, v2, v3) := v in (v0 / k, v1 / k, v2 / k, v3 / k).
Definition neg (v : vec4) : vec4 :=
  let '(v0, v1, v2, v3) := v in (- v0, - v1, - v2, - v3).
Definition dot (u v : vec4) : R :=
  let '(u0, u1, u2, u3) := u in let '(v0, v1, v2, v3) := v in
  u0 * v0 + u1 * v1 + u2 * v2 + u3 * v3.
Definition norm (v : vec4) : R := sqrt (dot v v).
Definition zero : vec4 := (0, 0, 0, 0).
End V4.

(** [M @ v], [M.T] and [k * M] for 3x3 matrices, [M @ v] for 4x4. *)
Definition matvec3 (M : mat3) (v : vec3) : vec3 :=
  let '(r0, r1, r2) := M in (V3.dot r0 v, V3.dot r1 v, V3.dot r2 v).

Definition transpose3 (M : mat3) : mat3 :=
  let '((a00, a01, a02), (a10, a11, a12), (a20, a21, a22)) := M in
  ((a00, a10, a20), (a01, a11, a21), (a02, a12, a22)).

Definition scale_mat3 (k : R) (M : mat3) : mat3 :=
  let '(r0, r1, r2) := M in (V3.scale k r0, V3.scale k r1, V3.scale k r2).

Definition matvec4 (M : mat4) (v : vec4) : vec4 :=
  let '(r0, r1, r2, r3) := M in
  (V4.dot r0 v, V4.dot r1 v, V4.dot r2 v, V4.dot r3 v).

(** ** Quaternion algebra (scalar first: [w, x, y, z]) *)

(* [quat_mult(q, p)]: the Hamilton product q * p. *)
Definition quat_mult (q p : vec4) : vec4 :=
  let '(q0, q1, q2, q3) := q in
  let '(p0, p1, p2, p3) := p in
  (p0 * q0 - q1 * p1 - q2 * p2 - q3 * p3,
   q1 * p0 + q0 * p1 + q2 * p3 - q3 * p2,
   q2 * p0 + q0 * p2 + q3 * p1 - q1 * p3,
   q3 * p0 + q0 * p3 + q1 * p2 - q2 * p1).

Definition quat_conjugate (q : vec4) : vec4 :=
  let '(q0, q1, q2, q3) := q in (q0, - q1, - q2, - q3).

(* [[0, *v]]: the pure quaternion of a 3-vector. *)
Definition pure (v : vec3) : vec4 :=
  let '(v0, v1, v2) := v in (0, v0, v1, v2).

(* [q[1:]]: the vector part. *)
Definition vector_part (q : vec4) : vec3 :=
  let '(_, q1, q2, q3) := q in (q1, q2, q3).

Definition scalar_part (q : vec4) : R :=
  let '(q0, _, _, _) := q in q0.

(** The action of a quaternion on a 3-vector by conjugation, q v q*. *)
Definition rotate (q : vec4) (v : vec3) : vec4 :=
  quat_mult (quat_mult q (pure v)) (quat_conjugate q).

(** numpy arrays of either length share [np.linalg.norm] and [/]. *)
Class NpArray (V : Type) : Type := { np_norm : V -> R; np_div : V -> R -> V }.
#[export] Instance NpArray_vec3 : NpArray vec3 := {| np_norm := V3.norm; np_div := V3.div |}.
#[export] Instance NpArray_vec4 : NpArray vec4 := {| np_norm := V4.norm; np_div := V4.div |}.

(* [normalized(v)]: [v / np.linalg.norm(v)].  The norm is zero only for the
   zero vector, whose entries all become 0/0 = NaN; nothing is raised. *)
Definition normalized {V : Type} `{NpArray V} (v : V) : outcome V :=
  let norm := np_norm v in
  if Req_dec_T norm 0 then NonFinite else Returns (np_div v norm).

(* [quaternion_from_vectors(v_from, v_to)] *)
Definition quaternion_from_vectors (v_from v_to : vec3) : outcome vec4 :=
  v_from <- normalized v_from ;;
  v_to <- normalized v_to ;;
  v_mid <- normalized (V3.add v_from v_to) ;;
  Returns (let '(c0, c1, c2) := V3.cross v_from v_mid in
           (V3.dot v_from v_mid, c0, c1, c2)).

(** ** Matrix inverses ([np.linalg.inv]) *)

Definition det3 (M : mat3) : R :=
  let '((a00, a01, a02), (a10, a11, a12), (a20, a21, a22)) := M in
  a00 * (a11 * a22 - a12 * a21)
  - a01 * (a10 * a22 - a12 * a20)
  + a02 * (a10 * a21 - a11 * a20).

Definition linalg_inv3 (M : mat3) : outcome mat3 :=
  let '((a00, a01, a02), (a10, a11, a12), (a20, a21, a22)) := M in
  let d := det3 M in
  if Req_dec_T d 0 then Raises LinAlgError else
  Returns (((a11 * a22 - a12 * a21) / d, (a02 * a21 - a01 * a22) / d, (a01 * a12 - a02 * a11) / d),
           ((a12 * a20 - a10 * a22) / d, (a00 * a22 - a02 * a20) / d, (a02 * a10 - a00 * a12) / d),
           ((a10 * a21 - a11 * a20) / d, (a01 * a20 - a00 * a21) / d, (a00 * a11 - a01 * a10) / d)).

Inductive idx4 : Type := I0 | I1 | I2 | I3.

Definition drop_col (j : idx4) (r : vec4) : vec3 :=
  let '(r0, r1, r2, r3) := r in
  match j with
  | I0 => (r1, r2, r3) | I1 => (r0, r2, r3) | I2 => (r0, r1, r3) | I3 => (r0, r1, r2)
  end.

Definition drop_row (i : idx4) (M : mat4) : vec4 * vec4 * vec4 :=
  let '(r0, r1, r2, r3) := M in
  match i with
  | I0 => (r1, r2, r3) | I1 => (r0, r2, r3) | I2 => (r0, r1, r3) | I3 => (r0, r1, r2)
  end.

Definition minor4 (M : mat4) (i j : idx4) : R :=
  let '(r0, r1, r2) := drop_row i M in
  det3 (drop_col j r0, drop_col j r1, drop_col j r2).

Definition odd_idx (i : idx4) : bool :=
  match i with I0 | I2 => false | I1 | I3 => true end.

Definition cofactor4 (M : mat4) (i j : idx4) : R :=
  if Bool.eqb (odd_idx i) (odd_idx j) then minor4 M i j else - minor4 M i j.

Definition det4 (M : mat4) : R :=
  let '((a0, a1, a2, a3), _, _, _) := M in
  a0 * cofactor4 M I0 I0 + a1 * cofactor4 M I0 I1
  + a2 * cofactor4 M I0 I2 + a3 * cofactor4 M I0 I3.

(* Entry (i, j) of the inverse is cofactor (j, i) over the determinant. *)
Definition linalg_inv4 (M : mat4) : outcome mat4 :=
  let d := det4 M in
  if Req_dec_T d 0 then Raises LinAlgError else
  let row (i : idx4) : vec4 :=
    (cofactor4 M I0 i / d, cofactor4 M I1 i / d, cofactor4 M I2 i / d, cofactor4 M I3 i / d) in
  Returns (row I0, row I1, row I2, row I3).

(** ** Rotation matrix of a quaternion
    [scipy.spatial.transform.Rotation.from_quat([q[1], q[2], q[3], q[0]]).as_matrix()]:
    scipy takes the quaternion scalar last, refuses a zero norm, normalizes,
    and builds the matrix of the unit quaternion. *)
Definition rotation_matrix (q : vec4) : outcome mat3 :=
  let '(q0, q1, q2, q3) := q in
  let n := V4.norm (q1, q2, q3, q0) in
  if Req_dec_T n 0 then Raises ValueError else
  let x := q1 / n in let y := q2 / n in let z := q3 / n in let w := q0 / n in
  Returns
    ((x * x - y * y - z * z + w * w, 2 * (x * y - z * w), 2 * (x * z + y * w)),
     (2 * (x * y + z * w), - (x * x) + y * y - z * z + w * w, 2 * (y * z - x * w)),
     (2 * (x * z - y * w), 2 * (y * z + x * w), - (x * x) - y * y + z * z + w * w)).

(** ** The vehicle *)

Record State : Type := mkState {
  state_pos : vec3;      (* state[IDX_POS_X : IDX_POS_Z + 1] *)
  state_vel : vec3;      (* state[IDX_VEL_X : IDX_VEL_Z + 1] *)
  state_quat : vec4;     (* state[IDX_QUAT_W : IDX_QUAT_Z + 1] *)
  state_omega : vec3     (* state[IDX_OMEGA_X : IDX_OMEGA_Z + 1] *)
}.

(** The attributes of a [Robot] object.  [F0], [omega_w], [phi] and
    [wind_force] are not assigned by [__init__]: they are [None] until some
    code assigns them, and reading them before raises [AttributeError]. *)
Record Robot : Type := mkRobot {
  m : R;
  arm_length : R;
  height : R;
  body_frame : list vec4;   (* six rows [(x, y, z, 1)] *)
  J : mat3;
  J_inv : mat3;
  constant_thrust : R;
  constant_drag : R;
  omega_motors : vec4;
  state : State;
  time : R;
  F0 : option vec3;
  omega_w : option R;
  phi : option R;
  wind_force : option vec3
}.

Definition getattr {A : Type} (field : option A) : outcome A :=
  match field with Some a => Returns a | None => Raises AttributeError end.

(* [reset_state_and_input] *)
Definition reset_state_and_input (init_xyz : vec3) (init_quat_wxyz : vec4) : State :=
  {| state_pos := init_xyz; state_vel := (0, 0, 0);
     state_quat := init_quat_wxyz; state_omega := (0, 0, 0) |}.

Definition eye3 : mat3 := ((1, 0, 0), (0, 1, 0), (0, 0, 1)).

(* [Robot.__init__]; [10e-4] is 0.001 and [10e-6] is 0.00001. *)
Definition Robot_init : outcome Robot :=
  let m := 1 in
  let arm_length := 25 / 100 in
  let height := 5 / 100 in
  let body_frame := [(arm_length, 0, 0, 1); (0, arm_length, 0, 1);
                     (- arm_length, 0, 0, 1); (0, - arm_length, 0, 1);
                     (0, 0, 0, 1); (0, 0, height, 1)] in
  let J := scale_mat3 (25 / 1000) eye3 in
  J_inv <- linalg_inv3 J ;;
  Returns {| m := m; arm_length := arm_length; height := height;
             body_frame := body_frame; J := J; J_inv := J_inv;
             constant_thrust := 10 / 10000; constant_drag := 10 / 1000000;
             omega_motors := (0, 0, 0, 0);
             state := reset_state_and_input (1, 0, 0) (1, 0, 0, 0);
             time := 0;
             F0 := None; omega_w := None; phi := None; wind_force := None |}.

(** ** Dynamics integrator *)

Definition sq (x : R) : R := x * x.   (* [x ** 2] *)

(* Lines shared by [update] and [update_wind]: the total thrust and the body
   torque [tau_b] produced by the four rotor speeds. *)
Definition rotor_thrust (quad : Robot) (omegas_motor : vec4) : R :=
  let '(o0, o1, o2, o3) := omegas_motor in
  constant_thrust quad * (sq o0 + sq o1 + sq o2 + sq o3).

Definition rotor_torque (quad : Robot) (omegas_motor : vec4) : vec3 :=
  let '(o0, o1, o2, o3) := omegas_motor in
  let tau_x := constant_thrust quad * (sq o3 - sq o1) * 2 * arm_length quad in
  let tau_y := constant_thrust quad * (sq o2 - sq o0) * 2 * arm_length quad in
  let tau_z := constant_drag quad * (sq o0 - sq o1 + sq o2 - sq o3) in
  (tau_x, tau_y, tau_z).

(* [self.J_inv @ (np.cross(self.J @ omega, omega) + tau_b)] *)
Definition omega_dot (quad : Robot) (omega tau_b : vec3) : vec3 :=
  matvec3 (J_inv quad) (V3.add (V3.cross (matvec3 (J quad) omega) omega) tau_b).

(* [1 / 2 * quat_mult(q, [0, *omega])] *)
Definition q_dot (q : vec4) (omega : vec3) : vec4 :=
  V4.scale (1 / 2) (quat_mult q (pure omega)).

(* The orientation slice after [self.state += x_dot * dt], before it is
   divided by its norm. *)
Definition quat_integrated (s : State) (dt : R) : vec4 :=
  V4.add (state_quat s) (V4.scale_r (q_dot (state_quat s) (state_omega s)) dt).

(* [1 / self.m] on a Python float *)
Definition py_inv (x : R) : outcome R :=
  if Req_dec_T x 0 then Raises ZeroDivisionError else Returns (1 / x).

(* [self.state += x_dot * dt], then the in-place division of the orientation
   slice by its norm: zero only when the slice is zero, and then its entries
   become NaN. *)
Definition integrate (s : State) (p_dot v_dot : vec3) (q_dot : vec4) (omega_dot : vec3) (dt : R)
  : outcome State :=
  let p' := V3.add (state_pos s) (V3.scale_r p_dot dt) in
  let v' := V3.add (state_vel s) (V3.scale_r v_dot dt) in
  let q' := V4.add (state_quat s) (V4.scale_r q_dot dt) in
  let w' := V3.add (state_omega s) (V3.scale_r omega_dot dt) in
  q'' <- normalized q' ;;
  Returns {| state_pos := p'; state_vel := v'; state_quat := q''; state_omega := w' |}.

Definition gravity : vec3 := (0, 0, - (981 / 100)).

(* [Robot.update] *)
Definition update (quad : Robot) (omegas_motor : vec4) (dt : R) : outcome Robot :=
  let v_I := state_vel (state quad) in
  let q := state_quat (state quad) in
  let omega := state_omega (state quad) in
  R <- rotation_matrix q ;;
  let thrust := rotor_thrust quad omegas_motor in
  let f_b := (0, 0, thrust) in
  let tau_b := rotor_torque quad omegas_motor in
  m_inv <- py_inv (m quad) ;;
  let v_dot := V3.add (matvec3 (scale_mat3 m_inv R) f_b) gravity in
  let omega_dot := omega_dot quad omega tau_b in
  let q_dot := q_dot q omega in
  let p_dot := v_I in
  state' <- integrate (state quad) p_dot v_dot q_dot omega_dot dt ;;
  Returns {| m := m quad; arm_length := arm_length quad; height := height quad;
             body_frame := body_frame quad; J := J quad; J_inv := J_inv quad;
             constant_thrust := constant_thrust quad; constant_drag := constant_drag quad;
             omega_motors := omega_motors quad;
             state := state';
             time := time quad + dt;
             F0 := F0 quad; omega_w := omega_w quad; phi := phi quad;
             wind_force := wind_force quad |}.

(* [Robot.update_wind] *)
Definition update_wind (quad : Robot) (omegas_motor : vec4) (dt : R) : outcome Robot :=
  let v_I := state_vel (state quad) in
  let q := state_quat (state quad) in
  let omega := state_omega (state quad) in
  R <- rotation_matrix q ;;
  let thrust := rotor_thrust quad omegas_motor in
  let f_b := (0, 0, thrust) in
  let tau_b := rotor_torque quad omegas_motor in
  let phi' := 0 in
  F0' <- getattr (F0 quad) ;;
  omega_w' <- getattr (omega_w quad) ;;
  let wind_force' := V3.scale_r F0' (sin (omega_w' * time quad + phi')) in
  m_inv <- py_inv (m quad) ;;
  let v_dot := V3.add (V3.scale m_inv (V3.add (matvec3 R f_b) wind_force')) gravity in
  let omega_dot := omega_dot quad omega tau_b in
  let q_dot := q_dot q omega in
  let p_dot := v_I in
  state' <- integrate (state quad) p_dot v_dot q_dot omega_dot dt ;;
  Returns {| m := m quad; arm_length := arm_length quad; height := height quad;
             body_frame := body_frame quad; J := J quad; J_inv := J_inv quad;
             constant_thrust := constant_thrust quad; constant_drag := constant_drag quad;
             omega_motors := omega_motors quad;
             state := state';
             time := time quad + dt;
             F0 := F0 quad; omega_w := omega_w quad; phi := Some phi';
             wind_force := Some wind_force' |}.

(** ** Controller *)

(* The matrix [B] of [control]. *)
Definition mixer_matrix (quad : Robot) : mat4 :=
  let kt := constant_thrust quad in
  let kd := constant_drag quad in
  let l := arm_length quad in
  ((kt, kt, kt, kt),
   (0, - l * kt, 0, l * kt),
   (- l * kt, 0, l * kt, 0),
   (kd, - kd, kd, - kd)).

(* [np.clip(x, 0, None)] and [np.sqrt], entry by entry *)
Definition clip0 (x : R) : R := if Rlt_dec x 0 then 0 else x.

Definition sqrt_clip (v : vec4) : vec4 :=
  let '(v0, v1, v2, v3) := v in
  (sqrt (clip0 v0), sqrt (clip0 v1), sqrt (clip0 v2), sqrt (clip0 v3)).

(* "Compute the motor speeds", the last lines of [control]:
   [omega_motor_square = B_inv @ np.concatenate([np.array([thrust]), tau])] *)
Definition omega_motor_square (quad : Robot) (thrust : R) (tau : vec3) : outcome vec4 :=
  let B := mixer_matrix quad in
  B_inv <- linalg_inv4 B ;;
  Returns (matvec4 B_inv (let '(tau_x, tau_y, tau_z) := tau in (thrust, tau_x, tau_y, tau_z))).

(* [omega_motor = np.sqrt(np.clip(omega_motor_square, 0, None))] *)
Definition mixer (quad : Robot) (thrust : R) (tau : vec3) : outcome vec4 :=
  omega_motor_square <- omega_motor_square quad thrust tau ;;
  Returns (sqrt_clip omega_motor_square).

(* [if (q_err[0] < 0): q_err = -q_err] *)
Definition shortest_path (q_err : vec4) : vec4 :=
  if Rlt_dec (scalar_part q_err) 0 then V4.neg q_err else q_err.

(* The desired world-frame force [f] of the position controller. *)
Definition desired_force (quad : Robot) (p_d_I : vec3) : vec3 :=
  let p_I := state_pos (state quad) in
  let v_I := state_vel (state quad) in
  let k_p := 1 in
  let k_d := 10 in
  let v_r := V3.scale (- k_p) (V3.sub p_I p_d_I) in
  let a := V3.add (V3.scale (- k_d) (V3.sub v_I v_r)) (0, 0, 981 / 100) in
  V3.scale (m quad) a.

(* The torque [tau] of the attitude controller, from the corrected error
   quaternion. *)
Definition attitude_torque (quad : Robot) (q_err : vec4) : vec3 :=
  let omega_b := state_omega (state quad) in
  let k_q := 20 in
  let k_omega := 100 in
  let omega_ref := V3.scale (- k_q * 2) (vector_part q_err) in
  let alpha := V3.scale (- k_omega) (V3.sub omega_b omega_ref) in
  V3.add (matvec3 (J quad) alpha) (V3.cross omega_b (matvec3 (J quad) omega_b)).

(* [Robot.control] *)
Definition control (quad : Robot) (p_d_I : vec3) : outcome vec4 :=
  let q := state_quat (state quad) in
  let f := desired_force quad p_d_I in
  R <- rotation_matrix q ;;
  let f_b := matvec3 (transpose3 R) f in
  let thrust := Rmax 0 (V3.z f_b) in
  f_hat <- normalized f ;;
  q_ref <- quaternion_from_vectors (0, 0, 1) f_hat ;;
  let q_err := shortest_path (quat_mult (quat_conjugate q_ref) q) in
  let tau := attitude_torque quad q_err in
  mixer quad thrust tau.

(** ** Trajectory driver and dataset *)

Definition CONTROL_FREQUENCY : R := 200.
Definition dt : R := 1 / CONTROL_FREQUENCY.

(* [control_propellers] *)
Definition control_propellers (quad : Robot) : outcome Robot :=
  let t := time quad in
  let T := 15 / 10 in
  let r := 2 * PI * t / T in
  prop_thrusts <- control quad (cos (r / 2), sin r, 0) ;;
  update_wind quad prop_thrusts dt.

(* [get_pos_full_quadcopter]: the six points of [body_frame] in the world
   frame, [wHb @ body_frame.T] without its last row; one entry per column.
   [Rotation.from_quat(quat, scalar_first=True)] is the rotation of [update]. *)
Definition get_pos_full_quadcopter (quad : Robot) : outcome (list vec3) :=
  let origin := state_pos (state quad) in
  let quat := state_quat (state quad) in
  rot <- rotation_matrix quat ;;
  Returns (map (fun b : vec4 => let '(x, y, z, w) := b in
                                V3.add (matvec3 rot (x, y, z)) (V3.scale_r origin w))
             (body_frame quad)).

(* One row of the dataset:
   [np.concatenate([state[3:6], state[6:10], omega_motor, quadcopter.wind_force])] *)
Record sample : Type := mkSample {
  sample_vel : vec3;
  sample_quat : vec4;
  sample_rotor_speeds : vec4;
  sample_wind_force : vec3
}.

(* The body of the tick loop of [generate_training_data] after
   [control_propellers]: the point appended to [trajectory] and the row
   appended to [data]. *)
Definition record_sample (quad : Robot) : outcome (list vec3 * sample) :=
  let state := state quad in
  let omega_motor := omega_motors quad in
  pos_full_quad <- get_pos_full_quadcopter quad ;;
  wind_force <- getattr (wind_force quad) ;;
  Returns (pos_full_quad,
           {| sample_vel := state_vel state; sample_quat := state_quat state;
              sample_rotor_speeds := omega_motor; sample_wind_force := wind_force |}).

(* The tick loop of [generate_training_data], [ticks] iterations from [quad]:
   the entries appended to [trajectory] and to [data], and how the loop
   ended.  The loop is followed as long as all values are finite: a tick that
   produces NaN entries ends it as [NonFinite]. *)
Fixpoint run_ticks (ticks : nat) (quad : Robot)
    (trajectory : list (list vec3)) (data : list sample)
  : list (list vec3) * list sample * outcome Robot :=
  match ticks with
  | O => (trajectory, data, Returns quad)
  | S ticks' =>
      match control_propellers quad with
      | Returns quad' =>
          match record_sample quad' with
          | Returns (pos_full_quad, row) =>
              run_ticks ticks' quad' (trajectory ++ [pos_full_quad]) (data ++ [row])
          | NonFinite => (trajectory, data, NonFinite)
          | Raises e => (trajectory, data, Raises e)
          end
      | NonFinite => (trajectory, data, NonFinite)
      | Raises e => (trajectory, data, Raises e)
      end
  end.

(* The rows of [data] in the result of the loop. *)
Definition data_of (result : list (list vec3) * list sample * outcome Robot) : list sample :=
  snd (fst result).

(* [quadcopter.F0 = ...; quadcopter.omega_w = ...]: attribute assignments. *)
Definition set_wind (quad : Robot) (F0' : vec3) (omega_w' : R) : Robot :=
  {| m := m quad; arm_length := arm_length quad; height := height quad;
     body_frame := body_frame quad; J := J quad; J_inv := J_inv quad;
     constant_thrust := constant_thrust quad; constant_drag := constant_drag quad;
     omega_motors := omega_motors quad;
     state := state quad; time := time quad;
     F0 := Some F0'; omega_w := Some omega_w';
     phi := phi quad; wind_force := wind_force quad |}.

(* One run of the sweep of [generate_training_data]: a fresh [Robot()], then
   [quadcopter.F0 = np.array([wind, 0.0, 0.0])] and
   [quadcopter.omega_w = angular_velocity]; then the tick loop.  The source
   runs [int(simulation_time / dt)] = 25000 ticks for each [wind] in
   [0, 1, 2] and each [angular_velocity] in [pi, 2 pi, 3 pi]. *)
Definition sweep_robot (wind angular_velocity : R) : outcome Robot :=
  quadcopter <- Robot_init ;;
  Returns (set_wind quadcopter (wind, 0, 0) angular_velocity).

Definition generate_run (ticks : nat) (wind angular_velocity : R)
  : list (list vec3) * list sample * outcome Robot :=
  match sweep_robot wind angular_velocity with
  | Returns quadcopter => run_ticks ticks quadcopter [] []
  | NonFinite => ([], [], NonFinite)
  | Raises e => ([], [], Raises e)
  end.

(** ** Animation front end ([main]) *)

Definition PLAYBACK_SPEED : nat := 1.

(* [for _ in range(n): control_propellers(quadcopter)] *)
Fixpoint repeat_control_propellers (n : nat) (quad : Robot) : outcome Robot :=
  match n with
  | O => Returns quad
  | S n' => quad' <- control_propellers quad ;; repeat_control_propellers n' quad'
  end.

(* [control_loop(i)] of [main]: the vehicle after the ticks of one frame and
   the points handed to the plotter. *)
Definition control_loop (quadcopter : Robot) : outcome (Robot * list vec3) :=
  quadcopter' <- repeat_control_propellers PLAYBACK_SPEED quadcopter ;;
  pos_full_quad <- get_pos_full_quadcopter quadcopter' ;;
  Returns (quadcopter', pos_full_quad).

(* What [main] computes when [control_loop] is first called: it constructs
   [quadcopter = Robot()] and hands [control_loop] to the plotter, assigning
   no wind attribute in between. *)
Definition main_first_frame : outcome (Robot * list vec3) :=
  quadcopter <- Robot_init ;;
  control_loop quadcopter.

(** ** Vocabulary of the properties *)

(* [v_to] points opposite to [v_from]. *)
Definition antiparallel (v_from v_to : vec3) : Prop :=
  exists k : R, 0 < k /\ v_to = V3.scale (- k) v_from.

(* The quaternion of the midpoint method, from a unit vector and the unit
   midpoint direction. *)
Definition midpoint_quaternion (a mid : vec3) : vec4 :=
  let '(c0, c1, c2) := V3.cross a mid in (V3.dot a mid, c0, c1, c2).

(* The mixer matrix is singular only when one of the three constants is zero. *)
Definition mixer_regular (quad : Robot) : Prop :=
  constant_thrust quad <> 0 /\ arm_length quad <> 0 /\ constant_drag quad <> 0.

(* All four entries are non-negative. *)
Definition nonneg4 (v : vec4) : Prop :=
  let '(v0, v1, v2, v3) := v in 0 <= v0 /\ 0 <= v1 /\ 0 <= v2 /\ 0 <= v3.

(* The vehicle [Robot()] constructs. *)
Definition default_robot : Robot :=
  {| m := 1; arm_length := 25 / 100; height := 5 / 100;
     body_frame := [(25 / 100, 0, 0, 1); (0, 25 / 100, 0, 1);
                    (- (25 / 100), 0, 0, 1); (0, - (25 / 100), 0, 1);
                    (0, 0, 0, 1); (0, 0, 5 / 100, 1)];
     J := scale_mat3 (25 / 1000) eye3;
     J_inv := ((40, 0, 0), (0, 40, 0), (0, 0, 40));
     constant_thrust := 10 / 10000; constant_drag := 10 / 1000000;
     omega_motors := (0, 0, 0, 0);
     state := reset_state_and_input (1, 0, 0) (1, 0, 0, 0);
     time := 0;
     F0 := None; omega_w := None; phi := None; wind_force := None |}.

(* The thrust and the torque [control] hands to the mixer, given the rotation
   matrix and the reference quaternion it computed. *)
Definition commanded_thrust (quad : Robot) (p_d_I : vec3) (Rot : mat3) : R :=
  Rmax 0 (V3.z (matvec3 (transpose3 Rot) (desired_force quad p_d_I))).

Definition commanded_torque (quad : Robot) (q_ref : vec4) : vec3 :=
  attitude_torque quad
    (shortest_path (quat_mult (quat_conjugate q_ref) (state_quat (state quad)))).

(* A vehicle put in a given state. *)
Definition set_state (quad : Robot) (s : State) : Robot :=
  {| m := m quad; arm_length := arm_length quad; height := height quad;
     body_frame := body_frame quad; J := J quad; J_inv := J_inv quad;
     constant_thrust := constant_thrust quad; constant_drag := constant_drag quad;
     omega_motors := omega_motors quad;
     state := s; time := time quad;
     F0 := F0 quad; omega_w := omega_w quad;
     phi := phi quad; wind_force := wind_force quad |}.

(* The constructed vehicle, level at the origin and climbing at 1 m/s. *)
Definition climbing_robot : Robot :=
  set_state default_robot
    {| state_pos := (0, 0, 0); state_vel := (0, 0, 1);
       state_quat := (1, 0, 0, 0); state_omega := (0, 0, 0) |}.

(* The vehicle a run of the sweep starts from. *)
Definition sweep_start (wind angular_velocity : R) : Robot :=
  set_wind default_robot (wind, 0, 0) angular_velocity.

(* The matrix scipy builds from a quaternion with vector part (x, y, z) and
   scalar part w. *)
Definition quat_matrix (x y z w : R) : mat3 :=
  ((x * x - y * y - z * z + w * w, 2 * (x * y - z * w), 2 * (x * z + y * w)),
   (2 * (x * y + z * w), - (x * x) + y * y - z * z + w * w, 2 * (y * z - x * w)),
   (2 * (x * z - y * w), 2 * (y * z + x * w), - (x * x) - y * y + z * z + w * w)).

(* The reference point [control_propellers] hands to [control] at time [t]. *)
Definition desired_position (t : R) : vec3 :=
  let T := 15 / 10 in
  let r := 2 * PI * t / T in
  (cos (r / 2), sin r, 0).

(* The vehicle constants and wind parameters, which no step writes. *)
Definition same_parameters (quad quad' : Robot) : Prop :=
  m quad' = m quad /\ arm_length quad' = arm_length quad /\ height quad' = height quad
  /\ body_frame quad' = body_frame quad /\ J quad' = J quad /\ J_inv quad' = J_inv quad
  /\ constant_thrust quad' = constant_thrust quad
  /\ constant_drag quad' = constant_drag quad
  /\ F0 quad' = F0 quad /\ omega_w quad' = omega_w quad.

(* Hovering at [p]: at rest, level. *)
Definition hover_state (p : vec3) : State :=
  {| state_pos := p; state_vel := (0, 0, 0);
     state_quat := (1, 0, 0, 0); state_omega := (0, 0, 0) |}.

(* The rotor speed at which the four rotors together carry the weight. *)
Definition hover_speed (quad : Robot) : R :=
  sqrt (m quad * (981 / 100) / (4 * constant_thrust quad)).

(** * Properties *)

(** ** Tactics and basic facts *)

Ltac destruct_vecs :=
  repeat match goal with
         | v : vec3 |- _ => destruct v as [[? ?] ?]
         | v : vec4 |- _ => destruct v as [[[? ?] ?] ?]
         | M : mat3 |- _ => destruct M as [[? ?] ?]
         | M : mat4 |- _ => destruct M as [[[? ?] ?] ?]
         end.

Lemma pair_eq {A B : Type} (a a' : A) (b b' : B) : a = a' -> b = b' -> (a, b) = (a', b').
Proof. intros -> ->. reflexivity. Qed.

(* Split an equation between tuples into its entries, then run [tac]. *)
Tactic Notation "vec_eq" tactic(tac) :=
  repeat match goal with |- (_, _) = (_, _) => apply pair_eq end; tac.

Lemma sum_sq3_zero (a b c : R) : a * a + b * b + c * c = 0 -> a = 0 /\ b = 0 /\ c = 0.
Proof. intros H. repeat split; nra. Qed.

Lemma sum_sq4_zero (a b c d : R) :
  a * a + b * b + c * c + d * d = 0 -> a = 0 /\ b = 0 /\ c = 0 /\ d = 0.
Proof. intros H. repeat split; nra. Qed.

Lemma V3_dot_nonneg (v : vec3) : 0 <= V3.dot v v.
Proof. destruct_vecs. unfold V3.dot. nra. Qed.

Lemma V4_dot_nonneg (v : vec4) : 0 <= V4.dot v v.
Proof. destruct_vecs. unfold V4.dot. nra. Qed.

Lemma V3_norm_zero_iff (v : vec3) : V3.norm v = 0 <-> v = V3.zero.
Proof.
  unfold V3.norm. split.
  - intros H. apply sqrt_eq_0 in H; [| apply V3_dot_nonneg].
    destruct_vecs. unfold V3.dot in H. apply sum_sq3_zero in H.
    destruct H as (-> & -> & ->). reflexivity.
  - intros ->. unfold V3.zero, V3.dot.
    replace (0 * 0 + 0 * 0 + 0 * 0) with 0 by ring. apply sqrt_0.
Qed.

Lemma V4_norm_zero_iff (v : vec4) : V4.norm v = 0 <-> v = V4.zero.
Proof.
  unfold V4.norm. split.
  - intros H. apply sqrt_eq_0 in H; [| apply V4_dot_nonneg].
    destruct_vecs. unfold V4.dot in H. apply sum_sq4_zero in H.
    destruct H as (-> & -> & -> & ->). reflexivity.
  - intros ->. unfold V4.zero, V4.dot.
    replace (0 * 0 + 0 * 0 + 0 * 0 + 0 * 0) with 0 by ring. apply sqrt_0.
Qed.

Lemma V3_norm_sq (v : vec3) : V3.norm v * V3.norm v = V3.dot v v.
Proof. unfold V3.norm. apply sqrt_sqrt, V3_dot_nonneg. Qed.

Lemma V4_norm_sq (v : vec4) : V4.norm v * V4.norm v = V4.dot v v.
Proof. unfold V4.norm. apply sqrt_sqrt, V4_dot_nonneg. Qed.

Lemma V3_dot_div (v : vec3) (k : R) :
  k <> 0 -> V3.dot (V3.div v k) (V3.div v k) = V3.dot v v / (k * k).
Proof. intros Hk. destruct_vecs. unfold V3.dot, V3.div. field. exact Hk. Qed.

Lemma V4_dot_div (v : vec4) (k : R) :
  k <> 0 -> V4.dot (V4.div v k) (V4.div v k) = V4.dot v v / (k * k).
Proof. intros Hk. destruct_vecs. unfold V4.dot, V4.div. field. exact Hk. Qed.

(** Dividing a nonzero vector by its norm leaves a vector of norm one. *)
Lemma V3_unit_dot (v : vec3) :
  V3.norm v <> 0 -> V3.dot (V3.div v (V3.norm v)) (V3.div v (V3.norm v)) = 1.
Proof.
  intros Hn. rewrite V3_dot_div by exact Hn. rewrite V3_norm_sq.
  field. rewrite <- V3_norm_sq. nra.
Qed.

Lemma V4_unit_dot (v : vec4) :
  V4.norm v <> 0 -> V4.dot (V4.div v (V4.norm v)) (V4.div v (V4.norm v)) = 1.
Proof.
  intros Hn. rewrite V4_dot_div by exact Hn. rewrite V4_norm_sq.
  field. rewrite <- V4_norm_sq. nra.
Qed.

Lemma V3_unit_norm (v : vec3) : V3.norm v <> 0 -> V3.norm (V3.div v (V3.norm v)) = 1.
Proof. intros Hn. unfold V3.norm at 1. rewrite V3_unit_dot by exact Hn. apply sqrt_1. Qed.

Lemma V4_unit_norm (v : vec4) : V4.norm v <> 0 -> V4.norm (V4.div v (V4.norm v)) = 1.
Proof. intros Hn. unfold V4.norm at 1. rewrite V4_unit_dot by exact Hn. apply sqrt_1. Qed.

Lemma normalized_nonzero {V : Type} `{NpArray V} (v : V) :
  np_norm v <> 0 -> normalized v = Returns (np_div v (np_norm v)).
Proof. intros Hn. unfold normalized. destruct (Req_dec_T (np_norm v) 0); [contradiction | reflexivity]. Qed.

Lemma normalized_zero_norm {V : Type} `{NpArray V} (v : V) :
  np_norm v = 0 -> normalized v = NonFinite.
Proof. intros Hn. unfold normalized. destruct (Req_dec_T (np_norm v) 0); [reflexivity | contradiction]. Qed.

(** ** Quaternion algebra *)

(** C9. [quat_mult] is associative, [[1, 0, 0, 0]] is its left and right
    identity, and a quaternion times its conjugate is the real quaternion
    [[w*w + x*x + y*y + z*z, 0, 0, 0]] of its squared norm. *)
Theorem quat_mult_assoc_identity_conjugate :
  (forall q p r : vec4, quat_mult (quat_mult q p) r = quat_mult q (quat_mult p r))
  /\ (forall q : vec4, quat_mult (1, 0, 0, 0) q = q /\ quat_mult q (1, 0, 0, 0) = q)
  /\ (forall w x y z : R,
         quat_mult (w, x, y, z) (quat_conjugate (w, x, y, z))
         = (w * w + x * x + y * y + z * z, 0, 0, 0)).
Proof.
  repeat split; intros; destruct_vecs; unfold quat_mult, quat_conjugate;
    vec_eq ring.
Qed.

Lemma rotate_neg (q : vec4) (v : vec3) : rotate (V4.neg q) v = rotate q v.
Proof.
  destruct_vecs. unfold rotate, quat_mult, quat_conjugate, pure, V4.neg.
  vec_eq ring.
Qed.

(** C10. In the attitude loop the raw error quaternion
    [quat_mult (quat_conjugate q_ref) q] is negated exactly when its scalar
    part is negative; the corrected quaternion has a non-negative scalar part
    and acts on every vector, by conjugation, as the raw one does. *)
Theorem shortest_path_nonneg_same_rotation (q_ref q : vec4) :
  let q_err := quat_mult (quat_conjugate q_ref) q in
  (scalar_part q_err < 0 -> shortest_path q_err = V4.neg q_err)
  /\ (0 <= scalar_part q_err -> shortest_path q_err = q_err)
  /\ 0 <= scalar_part (shortest_path q_err)
  /\ (forall v : vec3, rotate (shortest_path q_err) v = rotate q_err v).
Proof.
  intros q_err. generalize q_err. clear. intros e. unfold shortest_path.
  destruct (Rlt_dec (scalar_part e) 0) as [Hneg | Hpos].
  - split; [reflexivity |]. split; [lra |]. split.
    + destruct e as [[[e0 e1] e2] e3]. simpl in *. lra.
    + intros v. apply rotate_neg.
  - split; [contradiction |]. split; [reflexivity |]. split; [lra | reflexivity].
Qed.

(** ** Normalization *)

(** C7, as the code has it.  Dividing the zero 4-vector by its norm raises
    nothing: the result is the vector of NaN entries.  Every other 4-vector is
    returned divided by its Euclidean norm, and the result has norm one. *)
Theorem normalized_zero_nan_nonzero_unit (v : vec4) :
  (v = V4.zero -> normalized v = NonFinite)
  /\ (v <> V4.zero ->
      normalized v = Returns (V4.div v (V4.norm v))
      /\ V4.norm (V4.div v (V4.norm v)) = 1).
Proof.
  split.
  - intros ->. apply normalized_zero_norm. simpl. apply V4_norm_zero_iff. reflexivity.
  - intros Hv.
    assert (Hn : V4.norm v <> 0) by (intros H; apply Hv, V4_norm_zero_iff, H).
    split.
    + apply (@normalized_nonzero vec4 NpArray_vec4). exact Hn.
    + apply V4_unit_norm. exact Hn.
Qed.

(** C7 as stated fails at the zero vector: [normalized] raises no error there,
    it returns a vector of NaN entries. *)
Lemma normalized_zero_raises_nothing :
  normalized V4.zero = NonFinite
  /\ ~ (exists e : exn, normalized V4.zero = Raises e).
Proof.
  assert (H : normalized V4.zero = NonFinite).
  { apply (@normalized_zero_norm vec4 NpArray_vec4). simpl.
    apply V4_norm_zero_iff. reflexivity. }
  split; [exact H |]. intros (e & He). rewrite H in He. discriminate He.
Qed.

(** ** Quaternion between two vectors *)

Lemma midpoint_quaternion_unit (a mid : vec3) :
  V3.dot a a = 1 -> V3.dot mid mid = 1 -> V4.norm (midpoint_quaternion a mid) = 1.
Proof.
  intros Ha Hm. unfold V4.norm.
  replace (V4.dot (midpoint_quaternion a mid) (midpoint_quaternion a mid))
    with (V3.dot a a * V3.dot mid mid).
  - rewrite Ha, Hm, Rmult_1_r. apply sqrt_1.
  - destruct_vecs. unfold midpoint_quaternion, V4.dot, V3.dot, V3.cross. ring.
Qed.

Lemma midpoint_quaternion_rotates (a b mid : vec3) :
  V3.dot a a = 1 -> V3.dot mid mid = 1 ->
  V3.scale (2 * V3.dot a mid) mid = V3.add a b ->
  rotate (midpoint_quaternion a mid) a = pure b.
Proof.
  destruct a as [[a0 a1] a2], b as [[b0 b1] b2], mid as [[m0 m1] m2].
  unfold V3.dot, V3.scale, V3.add. intros Ha Hm Hs.
  injection Hs as H0 H1 H2.
  replace b0 with (2 * (a0 * m0 + a1 * m1 + a2 * m2) * m0 - a0) by lra.
  replace b1 with (2 * (a0 * m0 + a1 * m1 + a2 * m2) * m1 - a1) by lra.
  replace b2 with (2 * (a0 * m0 + a1 * m1 + a2 * m2) * m2 - a2) by lra.
  unfold rotate, midpoint_quaternion, quat_mult, quat_conjugate, pure, V3.cross, V3.dot.
  set (aa := a0 * a0 + a1 * a1 + a2 * a2) in Ha.
  set (mm := m0 * m0 + m1 * m1 + m2 * m2) in Hm.
  vec_eq idtac.
  - ring.
  - transitivity (aa * (2 * (a0 * m0 + a1 * m1 + a2 * m2) * m0 - mm * a0));
      [unfold aa, mm; ring | rewrite Ha, Hm; ring].
  - transitivity (aa * (2 * (a0 * m0 + a1 * m1 + a2 * m2) * m1 - mm * a1));
      [unfold aa, mm; ring | rewrite Ha, Hm; ring].
  - transitivity (aa * (2 * (a0 * m0 + a1 * m1 + a2 * m2) * m2 - mm * a2));
      [unfold aa, mm; ring | rewrite Ha, Hm; ring].
Qed.

(** For unit [a] and [b] with nonzero sum, twice the projection of [a] on the
    unit midpoint direction, along that direction, is the sum itself. *)
Lemma midpoint_double_projection (a b : vec3) :
  V3.dot a a = 1 -> V3.dot b b = 1 -> V3.norm (V3.add a b) <> 0 ->
  let mid := V3.div (V3.add a b) (V3.norm (V3.add a b)) in
  V3.scale (2 * V3.dot a mid) mid = V3.add a b.
Proof.
  intros Ha Hb Hn mid. subst mid.
  pose proof (V3_norm_sq (V3.add a b)) as Hsq.
  set (n := V3.norm (V3.add a b)) in *.
  destruct a as [[a0 a1] a2], b as [[b0 b1] b2].
  unfold V3.dot, V3.add, V3.div, V3.scale in *.
  assert (Hsq' : n * n = 2 * (a0 * (a0 + b0) + a1 * (a1 + b1) + a2 * (a2 + b2))) by nra.
  vec_eq idtac.
  - transitivity (2 * (a0 * (a0 + b0) + a1 * (a1 + b1) + a2 * (a2 + b2)) * (a0 + b0) / (n * n)).
    + field. exact Hn.
    + rewrite <- Hsq'. field. exact Hn.
  - transitivity (2 * (a0 * (a0 + b0) + a1 * (a1 + b1) + a2 * (a2 + b2)) * (a1 + b1) / (n * n)).
    + field. exact Hn.
    + rewrite <- Hsq'. field. exact Hn.
  - transitivity (2 * (a0 * (a0 + b0) + a1 * (a1 + b1) + a2 * (a2 + b2)) * (a2 + b2) / (n * n)).
    + field. exact Hn.
    + rewrite <- Hsq'. field. exact Hn.
Qed.

(** Unit vectors that sum to zero come from antiparallel inputs. *)
Lemma unit_sum_zero_antiparallel (v_from v_to : vec3) :
  V3.norm v_from <> 0 -> V3.norm v_to <> 0 ->
  V3.add (V3.div v_from (V3.norm v_from)) (V3.div v_to (V3.norm v_to)) = V3.zero ->
  antiparallel v_from v_to.
Proof.
  intros Hf Ht Hs.
  assert (Hpf : 0 <= V3.norm v_from) by apply sqrt_pos.
  assert (Hpt : 0 <= V3.norm v_to) by apply sqrt_pos.
  set (nf := V3.norm v_from) in *. set (nt := V3.norm v_to) in *.
  exists (nt / nf). split.
  - apply Rdiv_lt_0_compat; lra.
  - destruct v_from as [[f0 f1] f2], v_to as [[t0 t1] t2].
    unfold V3.add, V3.div, V3.zero, V3.scale in *. injection Hs as H0 H1 H2.
    vec_eq idtac.
    + transitivity (nt * (t0 / nt)); [field; exact Ht |].
      replace (t0 / nt) with (- (f0 / nf)) by lra. field. exact Hf.
    + transitivity (nt * (t1 / nt)); [field; exact Ht |].
      replace (t1 / nt) with (- (f1 / nf)) by lra. field. exact Hf.
    + transitivity (nt * (t2 / nt)); [field; exact Ht |].
      replace (t2 / nt) with (- (f2 / nf)) by lra. field. exact Hf.
Qed.

(** C8. For nonzero, non-antiparallel [v_from] and [v_to],
    [quaternion_from_vectors] returns the quaternion of the midpoint method:
    with [a] and [b] the normalized inputs and [mid] their normalized sum, it
    is [[dot a mid, cross a mid]]; it has norm one, and conjugating the pure
    quaternion of [a] by it gives the pure quaternion of [b]. *)
Theorem quaternion_from_vectors_midpoint (v_from v_to : vec3) :
  v_from <> V3.zero -> v_to <> V3.zero -> ~ antiparallel v_from v_to ->
  exists a b mid q : _,
    normalized v_from = Returns a
    /\ normalized v_to = Returns b
    /\ normalized (V3.add a b) = Returns mid
    /\ q = (let '(c0, c1, c2) := V3.cross a mid in (V3.dot a mid, c0, c1, c2))
    /\ quaternion_from_vectors v_from v_to = Returns q
    /\ V4.norm q = 1
    /\ rotate q a = pure b.
Proof.
  intros Hf Ht Hanti.
  assert (Hnf : V3.norm v_from <> 0) by (intros H; apply Hf, V3_norm_zero_iff, H).
  assert (Hnt : V3.norm v_to <> 0) by (intros H; apply Ht, V3_norm_zero_iff, H).
  set (a := V3.div v_from (V3.norm v_from)).
  set (b := V3.div v_to (V3.norm v_to)).
  assert (Hns : V3.norm (V3.add a b) <> 0).
  { intros H. apply Hanti. apply unit_sum_zero_antiparallel; try assumption.
    apply V3_norm_zero_iff. exact H. }
  set (mid := V3.div (V3.add a b) (V3.norm (V3.add a b))).
  assert (Ha : normalized v_from = Returns a) by (apply (@normalized_nonzero vec3 NpArray_vec3); exact Hnf).
  assert (Hb : normalized v_to = Returns b) by (apply (@normalized_nonzero vec3 NpArray_vec3); exact Hnt).
  assert (Hm : normalized (V3.add a b) = Returns mid)
    by (apply (@normalized_nonzero vec3 NpArray_vec3); exact Hns).
  assert (Haa : V3.dot a a = 1) by (apply V3_unit_dot; exact Hnf).
  assert (Hbb : V3.dot b b = 1) by (apply V3_unit_dot; exact Hnt).
  assert (Hmm : V3.dot mid mid = 1) by (apply V3_unit_dot; exact Hns).
  exists a, b, mid, (midpoint_quaternion a mid).
  repeat match goal with |- _ /\ _ => split end; try assumption.
  - reflexivity.
  - unfold quaternion_from_vectors. rewrite Ha. simpl. rewrite Hb. simpl.
    rewrite Hm. reflexivity.
  - apply midpoint_quaternion_unit; assumption.
  - apply midpoint_quaternion_rotates; try assumption.
    apply midpoint_double_projection; assumption.
Qed.

(** ** Integrator *)

Lemma rotation_matrix_returns (q : vec4) :
  q <> V4.zero -> exists R : mat3, rotation_matrix q = Returns R.
Proof.
  intros Hq. destruct q as [[[q0 q1] q2] q3]. unfold rotation_matrix.
  destruct (Req_dec_T (V4.norm (q1, q2, q3, q0)) 0) as [Hz | Hnz].
  - exfalso. apply Hq. apply V4_norm_zero_iff in Hz. unfold V4.zero in *.
    injection Hz as -> -> -> ->. reflexivity.
  - eexists. reflexivity.
Qed.

Lemma rotation_matrix_zero : rotation_matrix V4.zero = Raises ValueError.
Proof.
  unfold rotation_matrix, V4.zero.
  destruct (Req_dec_T (V4.norm (0, 0, 0, 0)) 0) as [Hz | Hnz]; [reflexivity |].
  exfalso. apply Hnz. apply V4_norm_zero_iff. reflexivity.
Qed.

Lemma quat_integrated_of_zero (s : State) (dt : R) :
  state_quat s = V4.zero -> quat_integrated s dt = V4.zero.
Proof.
  intros Hq. unfold quat_integrated, q_dot. rewrite Hq.
  destruct (state_omega s) as [[w0 w1] w2].
  unfold V4.zero, pure, quat_mult, V4.scale, V4.scale_r, V4.add. vec_eq ring.
Qed.

Lemma py_inv_nonzero (x : R) : x <> 0 -> py_inv x = Returns (1 / x).
Proof. intros Hx. unfold py_inv. destruct (Req_dec_T x 0); [contradiction | reflexivity]. Qed.

Lemma integrate_returns (s : State) (p_dot v_dot : vec3) (qd : vec4) (w_dot : vec3) (dt : R) :
  V4.add (state_quat s) (V4.scale_r qd dt) <> V4.zero ->
  integrate s p_dot v_dot qd w_dot dt
  = Returns {| state_pos := V3.add (state_pos s) (V3.scale_r p_dot dt);
               state_vel := V3.add (state_vel s) (V3.scale_r v_dot dt);
               state_quat := V4.div (V4.add (state_quat s) (V4.scale_r qd dt))
                               (V4.norm (V4.add (state_quat s) (V4.scale_r qd dt)));
               state_omega := V3.add (state_omega s) (V3.scale_r w_dot dt) |}.
Proof.
  intros Hq. unfold integrate.
  rewrite (@normalized_nonzero vec4 NpArray_vec4); [reflexivity |].
  simpl. intros H. apply Hq, V4_norm_zero_iff, H.
Qed.

Lemma integrate_inv (s s' : State) (p_dot v_dot : vec3) (qd : vec4) (w_dot : vec3) (dt : R) :
  integrate s p_dot v_dot qd w_dot dt = Returns s' ->
  V4.norm (state_quat s') = 1
  /\ state_omega s' = V3.add (state_omega s) (V3.scale_r w_dot dt).
Proof.
  unfold integrate, normalized. simpl.
  destruct (Req_dec_T (V4.norm (V4.add (state_quat s) (V4.scale_r qd dt))) 0) as [Hz | Hnz];
    simpl; [discriminate |].
  intros H. injection H as <-. simpl. split; [| reflexivity].
  apply V4_unit_norm. exact Hnz.
Qed.

(** A step of either integrator completes when the mass is nonzero and the
    integrated orientation is nonzero (for [update_wind], when moreover the
    wind parameters were assigned). *)
Lemma update_returns (quad : Robot) (omegas_motor : vec4) (dt : R) :
  m quad <> 0 -> quat_integrated (state quad) dt <> V4.zero ->
  exists quad' : Robot, update quad omegas_motor dt = Returns quad'.
Proof.
  intros Hm Hq.
  destruct (rotation_matrix_returns (state_quat (state quad))) as [R HR].
  { intros H. apply Hq, quat_integrated_of_zero, H. }
  unfold update. rewrite HR. simpl. rewrite (py_inv_nonzero _ Hm). simpl.
  rewrite integrate_returns by exact Hq. simpl. eexists. reflexivity.
Qed.

Lemma update_wind_returns (quad : Robot) (omegas_motor : vec4) (dt : R) (f0 : vec3) (w : R) :
  F0 quad = Some f0 -> omega_w quad = Some w ->
  m quad <> 0 -> quat_integrated (state quad) dt <> V4.zero ->
  exists quad' : Robot, update_wind quad omegas_motor dt = Returns quad'.
Proof.
  intros HF Hw Hm Hq.
  destruct (rotation_matrix_returns (state_quat (state quad))) as [R HR].
  { intros H. apply Hq, quat_integrated_of_zero, H. }
  unfold update_wind. rewrite HR, HF, Hw. simpl. rewrite (py_inv_nonzero _ Hm). simpl.
  rewrite integrate_returns by exact Hq. simpl. eexists. reflexivity.
Qed.

(** What a completed step leaves in the state: the integration of the
    derivative computed from the old state. *)
Lemma update_inv (quad quad' : Robot) (omegas_motor : vec4) (dt : R) :
  update quad omegas_motor dt = Returns quad' ->
  V4.norm (state_quat (state quad')) = 1
  /\ state_omega (state quad')
     = V3.add (state_omega (state quad))
         (V3.scale_r (omega_dot quad (state_omega (state quad)) (rotor_torque quad omegas_motor)) dt)
  /\ omega_motors quad' = omega_motors quad.
Proof.
  unfold update.
  destruct (rotation_matrix _) as [R | |]; simpl; try discriminate.
  destruct (py_inv _) as [m_inv | |]; simpl; try discriminate.
  destruct (integrate _ _ _ _ _ _) as [s' | |] eqn:Hs; simpl; try discriminate.
  intros H. injection H as <-. simpl.
  apply integrate_inv in Hs. destruct Hs as [Hn Hw]. repeat split; assumption.
Qed.

Lemma update_wind_inv (quad quad' : Robot) (omegas_motor : vec4) (dt : R) :
  update_wind quad omegas_motor dt = Returns quad' ->
  V4.norm (state_quat (state quad')) = 1
  /\ state_omega (state quad')
     = V3.add (state_omega (state quad))
         (V3.scale_r (omega_dot quad (state_omega (state quad)) (rotor_torque quad omegas_motor)) dt)
  /\ omega_motors quad' = omega_motors quad
  /\ wind_force quad' <> None.
Proof.
  unfold update_wind.
  destruct (rotation_matrix _) as [R | |]; simpl; try discriminate.
  destruct (getattr (F0 quad)) as [f0 | |]; simpl; try discriminate.
  destruct (getattr (omega_w quad)) as [w | |]; simpl; try discriminate.
  destruct (py_inv _) as [m_inv | |]; simpl; try discriminate.
  destruct (integrate _ _ _ _ _ _) as [s' | |] eqn:Hs; simpl; try discriminate.
  intros H. injection H as <-. simpl.
  apply integrate_inv in Hs. destruct Hs as [Hn Hw].
  repeat split; try assumption. discriminate.
Qed.

(** C2. Every completed step of [update] and of [update_wind] leaves in the
    state an orientation quaternion of Euclidean norm one, whatever the
    state, the rotor speeds and the timestep; and the step does complete
    whenever the integrated orientation is nonzero before its
    re-normalization (the mass being nonzero and, for [update_wind], the wind
    attributes assigned). *)
Theorem update_quaternion_unit_norm (quad : Robot) (omegas_motor : vec4) (dt : R) :
  (forall quad' : Robot,
      update quad omegas_motor dt = Returns quad'
      \/ update_wind quad omegas_motor dt = Returns quad' ->
      V4.norm (state_quat (state quad')) = 1)
  /\ (m quad <> 0 ->
      quat_integrated (state quad) dt <> V4.zero ->
      (exists quad' : Robot, update quad omegas_motor dt = Returns quad')
      /\ (forall (f0 : vec3) (w : R),
             F0 quad = Some f0 -> omega_w quad = Some w ->
             exists quad' : Robot, update_wind quad omegas_motor dt = Returns quad')).
Proof.
  split.
  - intros quad' [H | H].
    + apply update_inv in H. tauto.
    + apply update_wind_inv in H. tauto.
  - intros Hm Hq. split.
    + apply update_returns; assumption.
    + intros f0 w HF Hw. apply (update_wind_returns quad omegas_motor dt f0 w); assumption.
Qed.

Lemma cross_anticommutes (u v : vec3) : V3.cross u v = V3.neg (V3.cross v u).
Proof. destruct_vecs. unfold V3.cross, V3.neg. vec_eq ring. Qed.

(** C5. The angular acceleration the code computes,
    [J_inv @ (cross(J @ omega, omega) + tau_b)], equals
    [J_inv @ (tau_b - cross(omega, J @ omega))] for every [omega] and torque;
    and every completed step of [update] and of [update_wind] adds [dt] times
    that acceleration, taken at the current angular velocity and at the torque
    of the rotor speeds, to the angular velocity. *)
Theorem omega_dot_euler_equation (quad : Robot) :
  let euler (omega tau_b : vec3) :=
    matvec3 (J_inv quad) (V3.sub tau_b (V3.cross omega (matvec3 (J quad) omega))) in
  (forall omega tau_b : vec3, omega_dot quad omega tau_b = euler omega tau_b)
  /\ (forall (omegas_motor : vec4) (dt : R) (quad' : Robot),
         update quad omegas_motor dt = Returns quad'
         \/ update_wind quad omegas_motor dt = Returns quad' ->
         state_omega (state quad')
         = V3.add (state_omega (state quad))
             (V3.scale_r
                (euler (state_omega (state quad)) (rotor_torque quad omegas_motor)) dt)).
Proof.
  intros euler.
  assert (Heq : forall omega tau_b : vec3, omega_dot quad omega tau_b = euler omega tau_b).
  { intros omega tau_b. unfold euler, omega_dot. f_equal.
    rewrite cross_anticommutes.
    destruct (V3.cross omega (matvec3 (J quad) omega)) as [[c0 c1] c2].
    destruct tau_b as [[t0 t1] t2]. unfold V3.neg, V3.add, V3.sub. vec_eq ring. }
  split; [exact Heq |].
  intros omegas_motor dt quad' [H | H].
  - apply update_inv in H. destruct H as (_ & H & _). rewrite H, Heq. reflexivity.
  - apply update_wind_inv in H. destruct H as (_ & H & _). rewrite H, Heq. reflexivity.
Qed.

(** C3. With the wind amplitude [F0] equal to the zero vector, a step of
    [update_wind] ends as a step of [update] from the same vehicle with the
    same rotor speeds and timestep does: the same exception, or the same
    non-finite orientation, or the same 13 state components and the same
    clock. *)
Theorem update_wind_zero_amplitude (quad : Robot) (omegas_motor : vec4) (dt w : R) :
  F0 quad = Some V3.zero -> omega_w quad = Some w ->
  omap (fun r : Robot => (state r, time r)) (update_wind quad omegas_motor dt)
  = omap (fun r : Robot => (state r, time r)) (update quad omegas_motor dt).
Proof.
  intros HF Hw. unfold update_wind, update. rewrite HF, Hw.
  destruct (rotation_matrix _) as [R | |]; simpl; try reflexivity.
  destruct (py_inv _) as [m_inv | |]; simpl; try reflexivity.
  match goal with
  | |- omap _ (bind (integrate _ _ ?v1 _ _ _) _) = omap _ (bind (integrate _ _ ?v2 _ _ _) _) =>
      replace v1 with v2
  end.
  - destruct (integrate _ _ _ _ _ _) as [s' | |]; reflexivity.
  - f_equal. destruct R as [[[[r00 r01] r02] [[r10 r11] r12]] [[r20 r21] r22]].
    cbv [V3.zero V3.scale_r V3.add V3.scale matvec3 scale_mat3 V3.dot].
    vec_eq ring.
Qed.

(** ** Mixer *)

(** [linalg_inv4] returns a matrix that undoes the multiplication by its
    argument. *)
Lemma linalg_inv4_inverse (M N : mat4) (v : vec4) :
  linalg_inv4 M = Returns N -> matvec4 N (matvec4 M v) = v.
Proof.
  unfold linalg_inv4. destruct (Req_dec_T (det4 M) 0) as [Hz | Hnz]; [discriminate |].
  intros H. injection H as <-. revert Hnz.
  destruct M as [[[[[[a00 a01] a02] a03] [[[a10 a11] a12] a13]] [[[a20 a21] a22] a23]]
                   [[[a30 a31] a32] a33]].
  destruct v as [[[v0 v1] v2] v3].
  cbv [det4 cofactor4 minor4 drop_row drop_col det3 odd_idx Bool.eqb matvec4 V4.dot].
  intros Hnz. vec_eq (field; exact Hnz).
Qed.

Lemma mixer_matrix_det (quad : Robot) :
  det4 (mixer_matrix quad)
  = 8 * constant_thrust quad ^ 3 * arm_length quad ^ 2 * constant_drag quad.
Proof.
  cbv [det4 mixer_matrix cofactor4 minor4 drop_row drop_col det3 odd_idx Bool.eqb]. ring.
Qed.

Lemma mixer_matrix_det_nonzero (quad : Robot) :
  mixer_regular quad -> det4 (mixer_matrix quad) <> 0.
Proof.
  intros (Ht & Hl & Hd). rewrite mixer_matrix_det.
  repeat apply Rmult_integral_contrapositive_currified;
    try apply pow_nonzero; try assumption; lra.
Qed.

(** The squared rotor speeds the mixer solves for. *)
Lemma omega_motor_square_solution (quad : Robot) (thrust tau_x tau_y tau_z : R) :
  mixer_regular quad ->
  let kt := constant_thrust quad in
  let kd := constant_drag quad in
  let l := arm_length quad in
  omega_motor_square quad thrust (tau_x, tau_y, tau_z)
  = Returns (thrust / (4 * kt) - tau_y / (2 * l * kt) + tau_z / (4 * kd),
             thrust / (4 * kt) - tau_x / (2 * l * kt) - tau_z / (4 * kd),
             thrust / (4 * kt) + tau_y / (2 * l * kt) + tau_z / (4 * kd),
             thrust / (4 * kt) + tau_x / (2 * l * kt) - tau_z / (4 * kd)).
Proof.
  intros Hreg kt kd l. pose proof (mixer_matrix_det_nonzero quad Hreg) as Hdet.
  destruct Hreg as (Ht & Hl & Hd).
  unfold omega_motor_square, linalg_inv4.
  destruct (Req_dec_T (det4 (mixer_matrix quad)) 0) as [Hz | _]; [contradiction |].
  simpl bind. f_equal. subst kt kd l.
  cbv [det4 mixer_matrix cofactor4 minor4 drop_row drop_col det3 odd_idx Bool.eqb matvec4 V4.dot].
  vec_eq (field; repeat split; try assumption;
          intros Hc; apply Hdet; rewrite mixer_matrix_det, <- Hc; ring).
Qed.

Lemma clip0_nonneg (x : R) : 0 <= clip0 x.
Proof. unfold clip0. destruct (Rlt_dec x 0); lra. Qed.

Lemma clip0_id (x : R) : 0 <= x -> clip0 x = x.
Proof. intros Hx. unfold clip0. destruct (Rlt_dec x 0); lra. Qed.

Lemma sq_sqrt_clip0 (x : R) : 0 <= x -> sq (sqrt (clip0 x)) = x.
Proof. intros Hx. unfold sq. rewrite clip0_id by exact Hx. apply sqrt_sqrt, Hx. Qed.

Lemma sqrt_clip_nonneg (v : vec4) : nonneg4 (sqrt_clip v).
Proof. destruct_vecs. unfold sqrt_clip, nonneg4. repeat split; apply sqrt_pos. Qed.

(** Feeding the rotor speeds of the mixer to the integrator's thrust and
    torque formulas gives back the commanded thrust and yaw torque, and twice
    the commanded roll and pitch torques: [update] has the lever arm
    [2 * arm_length] where the mixer matrix has [arm_length]. *)
Lemma forward_of_mixer (quad : Robot) (thrust tau_x tau_y tau_z : R) (squares : vec4) :
  mixer_regular quad ->
  omega_motor_square quad thrust (tau_x, tau_y, tau_z) = Returns squares ->
  nonneg4 squares ->
  exists omegas : vec4,
    mixer quad thrust (tau_x, tau_y, tau_z) = Returns omegas
    /\ rotor_thrust quad omegas = thrust
    /\ rotor_torque quad omegas = (2 * tau_x, 2 * tau_y, tau_z).
Proof.
  intros Hreg Hsq Hnn. unfold mixer. rewrite Hsq. simpl bind.
  eexists. split; [reflexivity |].
  rewrite omega_motor_square_solution in Hsq by exact Hreg.
  injection Hsq as <-. destruct Hreg as (Ht & Hl & Hd).
  unfold nonneg4 in Hnn. destruct Hnn as (H0 & H1 & H2 & H3).
  unfold rotor_thrust, rotor_torque, sqrt_clip.
  rewrite !sq_sqrt_clip0 by assumption.
  split; [| vec_eq idtac]; field; repeat split; assumption.
Qed.

(** ** The constructed vehicle *)

Lemma Robot_init_returns : Robot_init = Returns default_robot.
Proof.
  unfold Robot_init, linalg_inv3, default_robot.
  cbv [scale_mat3 eye3 V3.scale det3].
  match goal with |- context [Req_dec_T ?d 0] => destruct (Req_dec_T d 0) as [Hz | Hnz] end.
  - exfalso. lra.
  - simpl bind. do 2 f_equal. vec_eq (field; lra).
Qed.

Lemma default_robot_regular : mixer_regular default_robot.
Proof. unfold mixer_regular. simpl. repeat split; lra. Qed.

(** C1, at a commanded tuple the code can receive.  For the constructed
    vehicle and the command (thrust, tau_x, tau_y, tau_z) = (4, 1/2, 0, 0) the
    mixer solves for the squared rotor speeds (1000, 0, 1000, 2000), none
    negative; the integrator's formulas map the returned rotor speeds to the
    thrust 4 and to the torque (1, 0, 0): the roll torque comes back doubled,
    not as commanded. *)
Theorem mixer_roll_torque_doubled :
  exists omegas : vec4,
    omega_motor_square default_robot 4 (1 / 2, 0, 0) = Returns (1000, 0, 1000, 2000)
    /\ mixer default_robot 4 (1 / 2, 0, 0) = Returns omegas
    /\ rotor_thrust default_robot omegas = 4
    /\ rotor_torque default_robot omegas = (1, 0, 0)
    /\ rotor_torque default_robot omegas <> (1 / 2, 0, 0).
Proof.
  assert (Hsq : omega_motor_square default_robot 4 (1 / 2, 0, 0)
                = Returns (1000, 0, 1000, 2000)).
  { rewrite omega_motor_square_solution by exact default_robot_regular.
    simpl. f_equal. vec_eq (field; lra). }
  destruct (forward_of_mixer default_robot 4 (1 / 2) 0 0 _ default_robot_regular Hsq)
    as (omegas & Hmix & Hthrust & Htorque).
  { unfold nonneg4. repeat split; lra. }
  exists omegas. split; [exact Hsq |]. split; [exact Hmix |]. split; [exact Hthrust |].
  assert (Ht : rotor_torque default_robot omegas = (1, 0, 0)).
  { rewrite Htorque. vec_eq lra. }
  split; [exact Ht |]. rewrite Ht. intros H. injection H as H. lra.
Qed.

(** ** Controller *)

Lemma V3_norm_scale_neg (k : R) (u : vec3) :
  0 < k -> V3.norm (V3.scale (- k) u) = k * V3.norm u.
Proof.
  intros Hk. unfold V3.norm.
  replace (V3.dot (V3.scale (- k) u) (V3.scale (- k) u)) with (k * k * V3.dot u u)
    by (destruct_vecs; unfold V3.dot, V3.scale; ring).
  rewrite sqrt_mult_alt by nra. rewrite sqrt_square by lra. reflexivity.
Qed.

Lemma quaternion_from_vectors_returns (v_from v_to : vec3) :
  v_from <> V3.zero -> v_to <> V3.zero -> ~ antiparallel v_from v_to ->
  exists q : vec4, quaternion_from_vectors v_from v_to = Returns q.
Proof.
  intros Hf Ht Hanti.
  assert (Hnf : V3.norm v_from <> 0) by (intros H; apply Hf, V3_norm_zero_iff, H).
  assert (Hnt : V3.norm v_to <> 0) by (intros H; apply Ht, V3_norm_zero_iff, H).
  unfold quaternion_from_vectors.
  rewrite (@normalized_nonzero vec3 NpArray_vec3 v_from) by exact Hnf. simpl bind.
  rewrite (@normalized_nonzero vec3 NpArray_vec3 v_to) by exact Hnt. simpl bind.
  rewrite (@normalized_nonzero vec3 NpArray_vec3).
  - simpl bind. eexists. reflexivity.
  - simpl. intros H. apply Hanti. apply unit_sum_zero_antiparallel; try assumption.
    apply V3_norm_zero_iff. exact H.
Qed.

(** On antiparallel inputs the midpoint is the zero vector and its
    normalization fills the quaternion with NaN. *)
Lemma quaternion_from_vectors_antiparallel (v_from v_to : vec3) :
  v_from <> V3.zero -> antiparallel v_from v_to ->
  quaternion_from_vectors v_from v_to = NonFinite.
Proof.
  intros Hf (k & Hk & ->).
  assert (Hnf : V3.norm v_from <> 0) by (intros H; apply Hf, V3_norm_zero_iff, H).
  assert (Hnt : V3.norm (V3.scale (- k) v_from) <> 0).
  { rewrite V3_norm_scale_neg by exact Hk. apply Rmult_integral_contrapositive_currified; lra. }
  unfold quaternion_from_vectors.
  rewrite (@normalized_nonzero vec3 NpArray_vec3 v_from) by exact Hnf. simpl bind.
  rewrite (@normalized_nonzero vec3 NpArray_vec3 (V3.scale (- k) v_from)) by exact Hnt.
  simpl bind.
  rewrite (@normalized_zero_norm vec3 NpArray_vec3); [reflexivity |].
  simpl. apply V3_norm_zero_iff.
  rewrite V3_norm_scale_neg by exact Hk.
  set (n := V3.norm v_from) in *.
  destruct v_from as [[f0 f1] f2]. unfold V3.add, V3.div, V3.scale, V3.zero.
  vec_eq (field; split; lra).
Qed.

Lemma normalized_direction (v : vec3) :
  v <> V3.zero ->
  exists v_hat : vec3,
    normalized v = Returns v_hat
    /\ v_hat <> V3.zero
    /\ (forall u : vec3, antiparallel u v_hat <-> antiparallel u v).
Proof.
  intros Hv.
  assert (Hn : V3.norm v <> 0) by (intros H; apply Hv, V3_norm_zero_iff, H).
  assert (Hpos : 0 < V3.norm v) by (pose proof (sqrt_pos (V3.dot v v)); unfold V3.norm in *; lra).
  exists (V3.div v (V3.norm v)). split; [| split].
  - apply (@normalized_nonzero vec3 NpArray_vec3). exact Hn.
  - intros H. pose proof (V3_unit_norm v Hn) as H1. rewrite H in H1.
    assert (H0 : V3.norm V3.zero = 0) by (apply V3_norm_zero_iff; reflexivity). lra.
  - intros u. set (n := V3.norm v) in *. split; intros (k & Hk & Heq).
    + exists (k * n). split; [nra |].
      destruct v as [[v0 v1] v2], u as [[u0 u1] u2].
      unfold V3.div, V3.scale in *. injection Heq as H0 H1 H2.
      vec_eq idtac.
      * transitivity (n * (v0 / n)); [field; exact Hn | rewrite H0; ring].
      * transitivity (n * (v1 / n)); [field; exact Hn | rewrite H1; ring].
      * transitivity (n * (v2 / n)); [field; exact Hn | rewrite H2; ring].
    + exists (k / n). split; [apply Rdiv_lt_0_compat; lra |].
      rewrite Heq. destruct u as [[u0 u1] u2]. unfold V3.div, V3.scale.
      vec_eq (field; exact Hn).
Qed.

Lemma control_returns (quad : Robot) (p_d_I : vec3) :
  mixer_regular quad ->
  state_quat (state quad) <> V4.zero ->
  desired_force quad p_d_I <> V3.zero ->
  ~ antiparallel (0, 0, 1) (desired_force quad p_d_I) ->
  exists (Rot : mat3) (f_hat : vec3) (q_ref squares : vec4),
    rotation_matrix (state_quat (state quad)) = Returns Rot
    /\ normalized (desired_force quad p_d_I) = Returns f_hat
    /\ quaternion_from_vectors (0, 0, 1) f_hat = Returns q_ref
    /\ omega_motor_square quad (commanded_thrust quad p_d_I Rot) (commanded_torque quad q_ref)
       = Returns squares
    /\ control quad p_d_I = Returns (sqrt_clip squares).
Proof.
  intros Hreg Hq Hf Hanti.
  destruct (rotation_matrix_returns _ Hq) as [Rot HR].
  destruct (normalized_direction _ Hf) as (f_hat & Hhat & Hnz & Hdir).
  destruct (quaternion_from_vectors_returns (0, 0, 1) f_hat) as [q_ref Href].
  { unfold V3.zero. intros H. injection H as H. lra. }
  { exact Hnz. }
  { intros H. apply Hanti, Hdir, H. }
  destruct (commanded_torque quad q_ref) as [[tau_x tau_y] tau_z] eqn:Htau.
  exists Rot, f_hat, q_ref. eexists.
  split; [exact HR |]. split; [exact Hhat |]. split; [exact Href |].
  rewrite Htau. split.
  - apply omega_motor_square_solution. exact Hreg.
  - unfold control. rewrite HR. simpl bind. rewrite Hhat. simpl bind.
    rewrite Href. simpl bind. fold (commanded_torque quad q_ref). rewrite Htau.
    fold (commanded_thrust quad p_d_I Rot).
    unfold mixer. rewrite omega_motor_square_solution by exact Hreg. reflexivity.
Qed.

Lemma control_antiparallel (quad : Robot) (p_d_I : vec3) :
  state_quat (state quad) <> V4.zero ->
  desired_force quad p_d_I <> V3.zero ->
  antiparallel (0, 0, 1) (desired_force quad p_d_I) ->
  control quad p_d_I = NonFinite.
Proof.
  intros Hq Hf Hanti.
  destruct (rotation_matrix_returns _ Hq) as [Rot HR].
  destruct (normalized_direction _ Hf) as (f_hat & Hhat & Hnz & Hdir).
  unfold control. rewrite HR. simpl bind. rewrite Hhat. simpl bind.
  rewrite quaternion_from_vectors_antiparallel; [reflexivity | |].
  - unfold V3.zero. intros H. injection H as H. lra.
  - apply Hdir, Hanti.
Qed.

(** C6, as the code has it.  For a vehicle with a regular mixer matrix, a
    nonzero orientation quaternion and a desired world-frame force that is
    nonzero and does not point straight down (opposite to the world "up"
    (0, 0, 1)), [control] returns four rotor speeds, each non-negative: the
    thrust given to the mixer is [max(0, f_b[2])], itself non-negative, and
    the returned speeds are the square roots of the mixer's squared speeds
    clipped below at 0. *)
Theorem control_speeds_nonnegative (quad : Robot) (p_d_I : vec3) :
  mixer_regular quad ->
  state_quat (state quad) <> V4.zero ->
  desired_force quad p_d_I <> V3.zero ->
  ~ antiparallel (0, 0, 1) (desired_force quad p_d_I) ->
  exists (Rot : mat3) (f_hat : vec3) (q_ref squares : vec4),
    rotation_matrix (state_quat (state quad)) = Returns Rot
    /\ normalized (desired_force quad p_d_I) = Returns f_hat
    /\ quaternion_from_vectors (0, 0, 1) f_hat = Returns q_ref
    /\ 0 <= commanded_thrust quad p_d_I Rot
    /\ omega_motor_square quad (commanded_thrust quad p_d_I Rot) (commanded_torque quad q_ref)
       = Returns squares
    /\ control quad p_d_I = Returns (sqrt_clip squares)
    /\ nonneg4 (sqrt_clip squares).
Proof.
  intros Hreg Hq Hf Hanti.
  destruct (control_returns quad p_d_I Hreg Hq Hf Hanti)
    as (Rot & f_hat & q_ref & squares & HR & Hhat & Href & Hsq & Hc).
  exists Rot, f_hat, q_ref, squares.
  repeat match goal with |- _ /\ _ => split end; try assumption.
  - unfold commanded_thrust. apply Rmax_l.
  - apply sqrt_clip_nonneg.
Qed.

Lemma climbing_robot_force :
  desired_force climbing_robot (0, 0, 0) = (0, 0, - (19 / 100)).
Proof. cbv [desired_force climbing_robot set_state default_robot state state_pos state_vel m
         V3.scale V3.sub V3.add]. vec_eq lra. Qed.

(** C6 as stated fails: the vehicle at the origin, level, climbing at 1 m/s
    and asked to hold the origin has the nonzero desired force
    (0, 0, -0.19), and [control] returns no non-negative rotor speeds: its
    result is filled with NaN. *)
Lemma control_nonzero_force_nan :
  desired_force climbing_robot (0, 0, 0) <> V3.zero
  /\ control climbing_robot (0, 0, 0) = NonFinite
  /\ ~ (exists omegas : vec4,
           control climbing_robot (0, 0, 0) = Returns omegas /\ nonneg4 omegas).
Proof.
  assert (Hf : desired_force climbing_robot (0, 0, 0) <> V3.zero).
  { rewrite climbing_robot_force. unfold V3.zero. intros H. injection H as H. lra. }
  assert (Hc : control climbing_robot (0, 0, 0) = NonFinite).
  { apply control_antiparallel.
    - simpl. unfold V4.zero. intros H. injection H as H. lra.
    - exact Hf.
    - rewrite climbing_robot_force. exists (19 / 100). split; [lra |].
      unfold V3.scale. vec_eq lra. }
  split; [exact Hf |]. split; [exact Hc |].
  intros (omegas & H & _). rewrite Hc in H. discriminate H.
Qed.

(** ** Trajectory driver and dataset *)

Lemma control_propellers_inv (quad quad' : Robot) :
  control_propellers quad = Returns quad' ->
  omega_motors quad' = omega_motors quad /\ wind_force quad' <> None.
Proof.
  unfold control_propellers.
  destruct (control quad _) as [prop_thrusts | |]; simpl; try discriminate.
  intros H. apply update_wind_inv in H. tauto.
Qed.

Lemma record_sample_rotor_speeds (quad : Robot) (pos_full_quad : list vec3) (row : sample) :
  record_sample quad = Returns (pos_full_quad, row) ->
  sample_rotor_speeds row = omega_motors quad.
Proof.
  unfold record_sample.
  destruct (get_pos_full_quadcopter quad); simpl; try discriminate.
  destruct (getattr (wind_force quad)); simpl; try discriminate.
  intros H. injection H as _ <-. reflexivity.
Qed.

(** Every row the tick loop appends carries the [omega_motors] attribute the
    vehicle had when the loop started. *)
Lemma run_ticks_rotor_speeds (ticks : nat) :
  forall (quad : Robot) (trajectory : list (list vec3)) (data : list sample),
    Forall (fun row => sample_rotor_speeds row = omega_motors quad) data ->
    Forall (fun row => sample_rotor_speeds row = omega_motors quad)
      (data_of (run_ticks ticks quad trajectory data)).
Proof.
  induction ticks as [| ticks IH]; intros quad trajectory data Hdata; simpl.
  - exact Hdata.
  - destruct (control_propellers quad) as [quad' | |] eqn:Hstep; simpl; try exact Hdata.
    destruct (record_sample quad') as [[pos_full_quad row] | |] eqn:Hrow;
      simpl; try exact Hdata.
    apply control_propellers_inv in Hstep. destruct Hstep as (Hom & _).
    apply record_sample_rotor_speeds in Hrow.
    rewrite <- Hom. apply IH. rewrite Hom. apply Forall_app. split; [exact Hdata |].
    constructor; [| constructor]. rewrite Hrow. exact Hom.
Qed.

(** C4. [omega_motors] is the zero vector after construction; a completed
    [update], [update_wind] or [control_propellers] leaves it as it was
    ([control] returns rotor speeds and has no vehicle to write: it is a
    function of the vehicle); and in every run of the sweep, followed as long
    as its values are finite, every row appended to the dataset has the zero
    vector as its rotor speeds. *)
Theorem rotor_speeds_recorded_zero :
  (forall quad : Robot, Robot_init = Returns quad -> omega_motors quad = (0, 0, 0, 0))
  /\ (forall (quad quad' : Robot) (omegas_motor : vec4) (dt : R),
         update quad omegas_motor dt = Returns quad'
         \/ update_wind quad omegas_motor dt = Returns quad' ->
         omega_motors quad' = omega_motors quad)
  /\ (forall quad quad' : Robot,
         control_propellers quad = Returns quad' ->
         omega_motors quad' = omega_motors quad)
  /\ (forall (ticks : nat) (wind angular_velocity : R) (row : sample),
         In row (data_of (generate_run ticks wind angular_velocity)) ->
         sample_rotor_speeds row = (0, 0, 0, 0)).
Proof.
  split; [| split; [| split]].
  - intros quad H. rewrite Robot_init_returns in H. injection H as <-. reflexivity.
  - intros quad quad' omegas_motor dt [H | H].
    + apply update_inv in H. tauto.
    + apply update_wind_inv in H. tauto.
  - intros quad quad' H. apply control_propellers_inv in H. tauto.
  - intros ticks wind angular_velocity row Hin.
    unfold generate_run, sweep_robot in Hin. rewrite Robot_init_returns in Hin.
    simpl bind in Hin. cbv iota in Hin.
    match type of Hin with
    | In _ (data_of (run_ticks _ ?quad _ _)) =>
        pose proof (run_ticks_rotor_speeds ticks quad [] [] (Forall_nil _)) as Hall
    end.
    rewrite Forall_forall in Hall. apply Hall in Hin. exact Hin.
Qed.

(** ** The first tick of a run *)

Lemma sweep_robot_returns (wind angular_velocity : R) :
  sweep_robot wind angular_velocity = Returns (sweep_start wind angular_velocity).
Proof. unfold sweep_robot. rewrite Robot_init_returns. reflexivity. Qed.

Lemma rotation_matrix_identity : rotation_matrix (1, 0, 0, 0) = Returns eye3.
Proof.
  assert (Hn : V4.norm (0, 0, 0, 1) = 1).
  { unfold V4.norm, V4.dot. replace (0 * 0 + 0 * 0 + 0 * 0 + 1 * 1) with 1 by ring.
    apply sqrt_1. }
  unfold rotation_matrix. rewrite Hn.
  destruct (Req_dec_T 1 0) as [H | _]; [lra |].
  unfold eye3. apply f_equal. vec_eq (field; lra).
Qed.

Lemma sweep_start_force_z (wind angular_velocity x y : R) :
  V3.z (desired_force (sweep_start wind angular_velocity) (x, y, 0)) = 981 / 100.
Proof. cbv [desired_force sweep_start set_wind default_robot state state_pos state_vel
              reset_state_and_input m
              V3.scale V3.sub V3.add V3.z]. lra. Qed.

Lemma sqrt_clip0_zero (x : R) : sqrt (clip0 x) = 0 -> x <= 0.
Proof.
  intros H. apply sqrt_eq_0 in H; [| apply clip0_nonneg].
  unfold clip0 in H. destruct (Rlt_dec x 0); lra.
Qed.

(** A positive thrust command never yields four zero rotor speeds. *)
Lemma mixer_positive_thrust (quad : Robot) (thrust : R) (tau : vec3) (squares : vec4) :
  mixer_regular quad -> 0 < constant_thrust quad -> 0 < thrust ->
  omega_motor_square quad thrust tau = Returns squares ->
  sqrt_clip squares <> V4.zero.
Proof.
  intros Hreg Hkt Hthrust Hsq. destruct tau as [[tau_x tau_y] tau_z].
  rewrite omega_motor_square_solution in Hsq by exact Hreg. injection Hsq as <-.
  destruct Hreg as (Ht & Hl & Hd).
  unfold sqrt_clip, V4.zero. intros H. injection H as H0 H1 H2 H3.
  apply sqrt_clip0_zero in H0, H1, H2, H3.
  assert (Hsum : thrust / constant_thrust quad <= 0).
  { match type of H0 with ?s0 <= 0 => match type of H1 with ?s1 <= 0 =>
      match type of H2 with ?s2 <= 0 => match type of H3 with ?s3 <= 0 =>
        replace (thrust / constant_thrust quad) with (s0 + s1 + s2 + s3)
          by (field; repeat split; assumption)
      end end end end.
    lra. }
  assert (Hpos : 0 < thrust / constant_thrust quad) by (apply Rdiv_lt_0_compat; assumption).
  lra.
Qed.

Lemma get_pos_full_quadcopter_returns (quad : Robot) :
  V4.norm (state_quat (state quad)) = 1 ->
  exists pos_full_quad : list vec3, get_pos_full_quadcopter quad = Returns pos_full_quad.
Proof.
  intros Hn. destruct (rotation_matrix_returns (state_quat (state quad))) as [Rot HR].
  - intros H. rewrite H in Hn.
    assert (H0 : V4.norm V4.zero = 0) by (apply V4_norm_zero_iff; reflexivity). lra.
  - unfold get_pos_full_quadcopter. rewrite HR. simpl. eexists. reflexivity.
Qed.

(** The first tick of every run completes and appends a row; the rotor speeds
    [control] commanded in that tick are not all zero, and the row records
    zeros. *)
Lemma first_tick_recorded (wind angular_velocity : R) :
  let quad := sweep_start wind angular_velocity in
  let r := 2 * PI * time quad / (15 / 10) in
  exists (omegas : vec4) (quad' : Robot) (pos_full_quad : list vec3) (row : sample),
    control quad (cos (r / 2), sin r, 0) = Returns omegas
    /\ omegas <> V4.zero
    /\ control_propellers quad = Returns quad'
    /\ record_sample quad' = Returns (pos_full_quad, row)
    /\ data_of (generate_run 1 wind angular_velocity) = [row]
    /\ sample_rotor_speeds row = (0, 0, 0, 0).
Proof.
  intros quad r.
  pose proof (sweep_start_force_z wind angular_velocity (cos (r / 2)) (sin r)) as Hz.
  fold quad in Hz.
  destruct (control_returns quad (cos (r / 2), sin r, 0))
    as (Rot & f_hat & q_ref & squares & HR & _ & _ & Hsq & Hc).
  { unfold quad, mixer_regular. simpl. repeat split; lra. }
  { unfold quad. simpl. unfold V4.zero. intros H. injection H as H. lra. }
  { intros H. rewrite H in Hz. simpl in Hz. lra. }
  { intros (k & Hk & H). rewrite H in Hz. simpl in Hz. lra. }
  assert (Hnz : sqrt_clip squares <> V4.zero).
  { apply (mixer_positive_thrust quad _ _ _) with (4 := Hsq).
    - unfold quad, mixer_regular. simpl. repeat split; lra.
    - unfold quad. simpl. lra.
    - change (rotation_matrix (1, 0, 0, 0) = Returns Rot) in HR.
      rewrite rotation_matrix_identity in HR.
      injection HR as <-. unfold commanded_thrust.
      apply Rlt_le_trans with (2 := Rmax_r _ _).
      destruct (desired_force quad (cos (r / 2), sin r, 0)) as [[f0 f1] f2].
      simpl in Hz. subst f2. cbv [eye3 transpose3 matvec3 V3.dot V3.z]. lra. }
  destruct (update_wind_returns quad (sqrt_clip squares) dt (wind, 0, 0) angular_velocity)
    as [quad' Hstep]; try reflexivity.
  { unfold quad. simpl. lra. }
  { unfold quad.
    cbv [sweep_start set_wind default_robot state reset_state_and_input quat_integrated q_dot
           state_quat state_omega pure quat_mult V4.scale V4.scale_r V4.add V4.zero].
    intros H. injection H as H _ _ _. lra. }
  assert (Hcp : control_propellers quad = Returns quad').
  { unfold control_propellers. fold r. rewrite Hc. exact Hstep. }
  pose proof (update_wind_inv _ _ _ _ Hstep) as (Hunit & _ & Hom & Hwf).
  destruct (wind_force quad') as [wf |] eqn:Ewf; [| contradiction].
  destruct (get_pos_full_quadcopter_returns quad' Hunit) as [pos_full_quad Hpos].
  eexists _, quad', pos_full_quad, _.
  split; [exact Hc |]. split; [exact Hnz |]. split; [exact Hcp |].
  assert (Hrow : record_sample quad'
                 = Returns (pos_full_quad,
                            {| sample_vel := state_vel (state quad');
                               sample_quat := state_quat (state quad');
                               sample_rotor_speeds := omega_motors quad';
                               sample_wind_force := wf |})).
  { unfold record_sample. rewrite Hpos, Ewf. reflexivity. }
  split; [exact Hrow |]. split.
  - unfold generate_run. rewrite sweep_robot_returns. fold quad.
    simpl. rewrite Hcp, Hrow. reflexivity.
  - simpl. rewrite Hom. reflexivity.
Qed.

(** ** The theorems at concrete inputs *)

Lemma sweep_start_quat_integrated (wind angular_velocity h : R) :
  quat_integrated (state (sweep_start wind angular_velocity)) h <> V4.zero.
Proof.
  cbv [sweep_start set_wind default_robot state reset_state_and_input quat_integrated q_dot
         state_quat state_omega pure quat_mult V4.scale V4.scale_r V4.add V4.zero].
  intros H. injection H as H _ _ _. lra.
Qed.

Lemma sweep_start_mass (wind angular_velocity : R) : m (sweep_start wind angular_velocity) <> 0.
Proof. simpl. lra. Qed.

Lemma sweep_start_regular (wind angular_velocity : R) :
  mixer_regular (sweep_start wind angular_velocity).
Proof. unfold mixer_regular. simpl. repeat split; lra. Qed.

Lemma sweep_start_quat (wind angular_velocity : R) :
  state_quat (state (sweep_start wind angular_velocity)) <> V4.zero.
Proof. simpl. unfold V4.zero. intros H. injection H as H. lra. Qed.

Lemma sweep_start_force (wind angular_velocity : R) :
  desired_force (sweep_start wind angular_velocity) (1, 0, 0) <> V3.zero
  /\ ~ antiparallel (0, 0, 1) (desired_force (sweep_start wind angular_velocity) (1, 0, 0)).
Proof.
  pose proof (sweep_start_force_z wind angular_velocity 1 0) as Hz. split.
  - intros H. rewrite H in Hz. simpl in Hz. lra.
  - intros (k & Hk & H). rewrite H in Hz. simpl in Hz. lra.
Qed.

Lemma update_quaternion_unit_norm_witness :
  let quad := sweep_start 0 PI in
  m quad <> 0
  /\ quat_integrated (state quad) dt <> V4.zero
  /\ (exists quad' : Robot,
         update quad (50, 50, 50, 50) dt = Returns quad'
         /\ V4.norm (state_quat (state quad')) = 1)
  /\ (exists quad' : Robot,
         update_wind quad (50, 50, 50, 50) dt = Returns quad'
         /\ V4.norm (state_quat (state quad')) = 1).
Proof.
  intros quad.
  pose proof (sweep_start_mass 0 PI) as Hm.
  pose proof (sweep_start_quat_integrated 0 PI dt) as Hq.
  split; [exact Hm |]. split; [exact Hq |].
  destruct (update_quaternion_unit_norm quad (50, 50, 50, 50) dt) as [Hunit Hreturns].
  destruct (Hreturns Hm Hq) as [[plain Hplain] Hwind].
  destruct (Hwind (0, 0, 0) PI eq_refl eq_refl) as [windy Hwindy].
  split.
  - exists plain. split; [exact Hplain | exact (Hunit plain (or_introl Hplain))].
  - exists windy. split; [exact Hwindy | exact (Hunit windy (or_intror Hwindy))].
Defined.

Lemma update_wind_zero_amplitude_witness :
  let quad := sweep_start 0 PI in
  F0 quad = Some V3.zero
  /\ omega_w quad = Some PI
  /\ omap (fun r : Robot => (state r, time r)) (update_wind quad (50, 50, 50, 50) dt)
     = omap (fun r : Robot => (state r, time r)) (update quad (50, 50, 50, 50) dt).
Proof.
  intros quad. split; [reflexivity |]. split; [reflexivity |].
  exact (update_wind_zero_amplitude quad (50, 50, 50, 50) dt PI eq_refl eq_refl).
Defined.

Lemma rotor_speeds_recorded_zero_witness :
  Robot_init = Returns default_robot
  /\ omega_motors default_robot = (0, 0, 0, 0)
  /\ exists row : sample,
       In row (data_of (generate_run 1 0 PI)) /\ sample_rotor_speeds row = (0, 0, 0, 0).
Proof.
  destruct rotor_speeds_recorded_zero as (Hinit & _ & _ & Hrows).
  split; [exact Robot_init_returns |].
  split; [exact (Hinit default_robot Robot_init_returns) |].
  destruct (first_tick_recorded 0 PI)
    as (omegas & quad' & pos_full_quad & row & _ & _ & _ & _ & Hrun & _).
  assert (Hin : In row (data_of (generate_run 1 0 PI))) by (rewrite Hrun; left; reflexivity).
  exists row. split; [exact Hin |]. exact (Hrows 1%nat 0 PI row Hin).
Defined.

Lemma omega_dot_euler_equation_witness :
  let quad := sweep_start 0 PI in
  exists quad' : Robot,
    update quad (50, 50, 50, 50) dt = Returns quad'
    /\ state_omega (state quad')
       = V3.add (state_omega (state quad))
           (V3.scale_r
              (matvec3 (J_inv quad)
                 (V3.sub (rotor_torque quad (50, 50, 50, 50))
                    (V3.cross (state_omega (state quad))
                       (matvec3 (J quad) (state_omega (state quad)))))) dt).
Proof.
  intros quad.
  destruct (update_returns quad (50, 50, 50, 50) dt
              (sweep_start_mass 0 PI) (sweep_start_quat_integrated 0 PI dt)) as [quad' H].
  exists quad'. split; [exact H |].
  exact (proj2 (omega_dot_euler_equation quad) (50, 50, 50, 50) dt quad' (or_introl H)).
Defined.

Lemma control_speeds_nonnegative_witness :
  let quad := sweep_start 0 PI in
  mixer_regular quad
  /\ state_quat (state quad) <> V4.zero
  /\ desired_force quad (1, 0, 0) <> V3.zero
  /\ ~ antiparallel (0, 0, 1) (desired_force quad (1, 0, 0))
  /\ exists omegas : vec4, control quad (1, 0, 0) = Returns omegas /\ nonneg4 omegas.
Proof.
  intros quad.
  pose proof (sweep_start_regular 0 PI) as Hreg.
  pose proof (sweep_start_quat 0 PI) as Hq.
  destruct (sweep_start_force 0 PI) as [Hf Hanti].
  split; [exact Hreg |]. split; [exact Hq |]. split; [exact Hf |]. split; [exact Hanti |].
  destruct (control_speeds_nonnegative quad (1, 0, 0) Hreg Hq Hf Hanti)
    as (Rot & f_hat & q_ref & squares & _ & _ & _ & _ & _ & Hc & Hnn).
  exists (sqrt_clip squares). split; [exact Hc | exact Hnn].
Defined.

Lemma normalized_zero_nan_nonzero_unit_witness :
  normalized V4.zero = NonFinite
  /\ (3, 0, 4, 0) <> V4.zero
  /\ normalized (3, 0, 4, 0) = Returns (V4.div (3, 0, 4, 0) (V4.norm (3, 0, 4, 0)))
  /\ V4.norm (V4.div (3, 0, 4, 0) (V4.norm (3, 0, 4, 0))) = 1.
Proof.
  assert (Hnz : (3, 0, 4, 0) <> V4.zero).
  { unfold V4.zero. intros H. injection H as H _. lra. }
  split; [exact (proj1 (normalized_zero_nan_nonzero_unit V4.zero) eq_refl) |].
  split; [exact Hnz |].
  exact (proj2 (normalized_zero_nan_nonzero_unit (3, 0, 4, 0)) Hnz).
Defined.

Lemma quaternion_from_vectors_midpoint_witness :
  (0, 0, 1) <> V3.zero
  /\ (1, 0, 0) <> V3.zero
  /\ ~ antiparallel (0, 0, 1) (1, 0, 0)
  /\ exists q : vec4,
       quaternion_from_vectors (0, 0, 1) (1, 0, 0) = Returns q /\ V4.norm q = 1.
Proof.
  assert (Hf : (0, 0, 1) <> V3.zero).
  { unfold V3.zero. intros H. injection H as H. lra. }
  assert (Ht : (1, 0, 0) <> V3.zero).
  { unfold V3.zero. intros H. injection H as H. lra. }
  assert (Hanti : ~ antiparallel (0, 0, 1) (1, 0, 0)).
  { intros (k & Hk & H). cbv [V3.scale] in H. injection H as H _ _. lra. }
  split; [exact Hf |]. split; [exact Ht |]. split; [exact Hanti |].
  destruct (quaternion_from_vectors_midpoint (0, 0, 1) (1, 0, 0) Hf Ht Hanti)
    as (a & b & mid & q & _ & _ & _ & _ & Hq & Hn & _).
  exists q. split; [exact Hq | exact Hn].
Defined.

Lemma shortest_path_nonneg_same_rotation_witness :
  let q_err := quat_mult (quat_conjugate (1, 0, 0, 0)) (-1, 0, 0, 0) in
  scalar_part q_err < 0
  /\ shortest_path q_err = V4.neg q_err
  /\ 0 <= scalar_part (shortest_path q_err).
Proof.
  intros q_err.
  assert (Hneg : scalar_part q_err < 0) by (unfold q_err; simpl; lra).
  destruct (shortest_path_nonneg_same_rotation (1, 0, 0, 0) (-1, 0, 0, 0))
    as (Hflip & _ & Hpos & _).
  split; [exact Hneg |]. split; [exact (Hflip Hneg) | exact Hpos].
Defined.

(** * Further properties of the code *)

(** ** Quaternion algebra *)

(** The squared norm of a product is the product of the squared norms, so
    the norm of [quat_mult q p] is the product of the norms: products of unit
    quaternions are unit quaternions. *)
Theorem quat_mult_norm (q p : vec4) :
  V4.dot (quat_mult q p) (quat_mult q p) = V4.dot q q * V4.dot p p
  /\ V4.norm (quat_mult q p) = V4.norm q * V4.norm p.
Proof.
  assert (H : V4.dot (quat_mult q p) (quat_mult q p) = V4.dot q q * V4.dot p p).
  { destruct_vecs. unfold quat_mult, V4.dot. ring. }
  split; [exact H |].
  unfold V4.norm. rewrite H. apply sqrt_mult; apply V4_dot_nonneg.
Qed.

(** Conjugation is an involution, reverses products and keeps the norm. *)
Theorem quat_conjugate_involution_reverses (q p : vec4) :
  quat_conjugate (quat_conjugate q) = q
  /\ quat_conjugate (quat_mult q p) = quat_mult (quat_conjugate p) (quat_conjugate q)
  /\ V4.norm (quat_conjugate q) = V4.norm q.
Proof.
  destruct_vecs. unfold quat_conjugate, quat_mult, V4.norm, V4.dot.
  split; [vec_eq ring |]. split; [vec_eq ring |]. f_equal. ring.
Qed.

(** Conjugating the pure quaternion of a vector by any quaternion gives a
    pure quaternion again, whose vector part has the squared length of the
    vector times the fourth power of the quaternion's norm: unit quaternions
    act as isometries. *)
Theorem rotate_pure_isometry (q : vec4) (v : vec3) :
  scalar_part (rotate q v) = 0
  /\ V3.dot (vector_part (rotate q v)) (vector_part (rotate q v))
     = V4.dot q q * V4.dot q q * V3.dot v v.
Proof.
  destruct_vecs.
  unfold rotate, quat_mult, quat_conjugate, pure, scalar_part, vector_part, V4.dot, V3.dot.
  split; ring.
Qed.

(** ** Normalization *)

Lemma V3_norm_scale_pos (k : R) (v : vec3) : 0 < k -> V3.norm (V3.scale k v) = k * V3.norm v.
Proof.
  intros Hk. unfold V3.norm.
  replace (V3.dot (V3.scale k v) (V3.scale k v)) with (k * k * V3.dot v v)
    by (destruct_vecs; unfold V3.dot, V3.scale; ring).
  rewrite sqrt_mult_alt by nra. rewrite sqrt_square by lra. reflexivity.
Qed.

Lemma normalized_scale_pos (k : R) (v : vec3) :
  0 < k -> normalized (V3.scale k v) = normalized v.
Proof.
  intros Hk. unfold normalized. simpl np_norm. simpl np_div.
  rewrite V3_norm_scale_pos by exact Hk.
  destruct (Req_dec_T (V3.norm v) 0) as [Hz | Hnz];
    destruct (Req_dec_T (k * V3.norm v) 0) as [Hz' | Hnz']; try reflexivity.
  - exfalso. apply Hnz'. rewrite Hz. ring.
  - exfalso. apply Rmult_integral in Hz'. destruct Hz'; [lra | contradiction].
  - apply f_equal. set (n := V3.norm v) in *. destruct v as [[v0 v1] v2].
    unfold V3.scale, V3.div. vec_eq (field; split; lra).
Qed.

Lemma normalized_unit (v : vec3) : V3.dot v v = 1 -> normalized v = Returns v.
Proof.
  intros Hv. unfold normalized. simpl np_norm. simpl np_div.
  assert (Hn : V3.norm v = 1) by (unfold V3.norm; rewrite Hv; apply sqrt_1).
  rewrite Hn. destruct (Req_dec_T 1 0) as [H | _]; [lra |].
  apply f_equal. destruct v as [[v0 v1] v2]. unfold V3.div. vec_eq (field; lra).
Qed.

(** [normalized] does not see a positive scaling of its argument, and
    normalizing its own result changes nothing. *)
Theorem normalized_scale_invariant_idempotent (k : R) (v u : vec3) :
  (0 < k -> normalized (V3.scale k v) = normalized v)
  /\ (normalized v = Returns u -> normalized u = Returns u).
Proof.
  split; [apply normalized_scale_pos |].
  unfold normalized. simpl np_norm. simpl np_div.
  destruct (Req_dec_T (V3.norm v) 0) as [Hz | Hnz]; [discriminate |].
  intros H. injection H as <-. apply normalized_unit, V3_unit_dot, Hnz.
Qed.

Lemma normalized_scale_invariant_idempotent_witness :
  0 < 2
  /\ normalized (V3.scale 2 (0, 3, 4)) = normalized (0, 3, 4)
  /\ exists u : vec3, normalized (0, 3, 4) = Returns u /\ normalized u = Returns u.
Proof.
  assert (Hk : 0 < 2) by lra.
  destruct (normalized_scale_invariant_idempotent 2 (0, 3, 4)
              (V3.div (0, 3, 4) (V3.norm (0, 3, 4)))) as [Hscale Hidem].
  assert (Hn : normalized (0, 3, 4) = Returns (V3.div (0, 3, 4) (V3.norm (0, 3, 4)))).
  { apply (@normalized_nonzero vec3 NpArray_vec3). simpl. intros H.
    apply V3_norm_zero_iff in H. unfold V3.zero in H. injection H as H _. lra. }
  split; [exact Hk |]. split; [exact (Hscale Hk) |].
  eexists. split; [exact Hn | exact (Hidem Hn)].
Defined.

(** ** Quaternion between two vectors *)

Lemma quaternion_from_vectors_value (v_from v_to : vec3) :
  v_from <> V3.zero -> v_to <> V3.zero -> ~ antiparallel v_from v_to ->
  let a := V3.div v_from (V3.norm v_from) in
  let b := V3.div v_to (V3.norm v_to) in
  let mid := V3.div (V3.add a b) (V3.norm (V3.add a b)) in
  V3.dot a a = 1 /\ V3.dot b b = 1 /\ V3.norm (V3.add a b) <> 0
  /\ quaternion_from_vectors v_from v_to = Returns (midpoint_quaternion a mid).
Proof.
  intros Hf Ht Hanti a b mid.
  assert (Hnf : V3.norm v_from <> 0) by (intros H; apply Hf, V3_norm_zero_iff, H).
  assert (Hnt : V3.norm v_to <> 0) by (intros H; apply Ht, V3_norm_zero_iff, H).
  assert (Hns : V3.norm (V3.add a b) <> 0).
  { intros H. apply Hanti. apply unit_sum_zero_antiparallel; try assumption.
    apply V3_norm_zero_iff. exact H. }
  split; [apply V3_unit_dot, Hnf |]. split; [apply V3_unit_dot, Hnt |].
  split; [exact Hns |].
  unfold quaternion_from_vectors.
  rewrite (@normalized_nonzero vec3 NpArray_vec3 v_from) by exact Hnf. simpl bind.
  rewrite (@normalized_nonzero vec3 NpArray_vec3 v_to) by exact Hnt. simpl bind.
  rewrite (@normalized_nonzero vec3 NpArray_vec3) by exact Hns. reflexivity.
Qed.

(** [quaternion_from_vectors] never raises.  It returns a quaternion exactly
    when both vectors are nonzero and not antiparallel, and then the scalar
    part of the quaternion is positive (the rotation is by less than a half
    turn); in every other case its result is filled with NaN. *)
Theorem quaternion_from_vectors_outcome (v_from v_to : vec3) :
  (v_from <> V3.zero /\ v_to <> V3.zero /\ ~ antiparallel v_from v_to ->
   exists q : vec4,
     quaternion_from_vectors v_from v_to = Returns q /\ 0 < scalar_part q)
  /\ (v_from = V3.zero \/ v_to = V3.zero \/ antiparallel v_from v_to ->
      quaternion_from_vectors v_from v_to = NonFinite).
Proof.
  split.
  - intros (Hf & Ht & Hanti).
    destruct (quaternion_from_vectors_value v_from v_to Hf Ht Hanti)
      as (Haa & Hbb & Hns & Hq).
    eexists. split; [exact Hq |].
    set (a := V3.div v_from (V3.norm v_from)) in *.
    set (b := V3.div v_to (V3.norm v_to)) in *.
    pose proof (V3_norm_sq (V3.add a b)) as Hsq.
    assert (Hpos : 0 < V3.norm (V3.add a b)).
    { pose proof (sqrt_pos (V3.dot (V3.add a b) (V3.add a b))) as H.
      unfold V3.norm in *. lra. }
    set (n := V3.norm (V3.add a b)) in *.
    destruct a as [[a0 a1] a2], b as [[b0 b1] b2].
    unfold midpoint_quaternion, V3.cross, scalar_part, V3.dot, V3.add, V3.div in *.
    replace (a0 * ((a0 + b0) / n) + a1 * ((a1 + b1) / n) + a2 * ((a2 + b2) / n))
      with (n * n / 2 / n) by (field_simplify_eq; [nra | lra]).
    apply Rdiv_lt_0_compat; [nra | exact Hpos].
  - intros [Hf | [Ht | Hanti]].
    + unfold quaternion_from_vectors.
      rewrite (@normalized_zero_norm vec3 NpArray_vec3 v_from); [reflexivity |].
      apply V3_norm_zero_iff, Hf.
    + unfold quaternion_from_vectors.
      destruct (Req_dec_T (V3.norm v_from) 0) as [Hz | Hnz].
      * rewrite (@normalized_zero_norm vec3 NpArray_vec3 v_from); [reflexivity | exact Hz].
      * rewrite (@normalized_nonzero vec3 NpArray_vec3 v_from) by exact Hnz. simpl bind.
        rewrite (@normalized_zero_norm vec3 NpArray_vec3 v_to); [reflexivity |].
        apply V3_norm_zero_iff, Ht.
    + destruct (Req_dec_T (V3.norm v_from) 0) as [Hz | Hnz].
      * unfold quaternion_from_vectors.
        rewrite (@normalized_zero_norm vec3 NpArray_vec3 v_from); [reflexivity | exact Hz].
      * apply quaternion_from_vectors_antiparallel; [| exact Hanti].
        intros H. apply Hnz, V3_norm_zero_iff, H.
Qed.

Lemma quaternion_from_vectors_outcome_witness :
  ((0, 0, 1) <> V3.zero /\ (0, 3, 4) <> V3.zero /\ ~ antiparallel (0, 0, 1) (0, 3, 4))
  /\ (exists q : vec4,
         quaternion_from_vectors (0, 0, 1) (0, 3, 4) = Returns q /\ 0 < scalar_part q)
  /\ antiparallel (0, 0, 1) (0, 0, -2)
  /\ quaternion_from_vectors (0, 0, 1) (0, 0, -2) = NonFinite.
Proof.
  assert (Hpre : (0, 0, 1) <> V3.zero /\ (0, 3, 4) <> V3.zero
                 /\ ~ antiparallel (0, 0, 1) (0, 3, 4)).
  { unfold V3.zero. repeat split.
    - intros H. injection H as H. lra.
    - intros H. injection H as H _. lra.
    - intros (k & Hk & H). cbv [V3.scale] in H. injection H as H _. lra. }
  assert (Hanti : antiparallel (0, 0, 1) (0, 0, -2)).
  { exists 2. split; [lra |]. cbv [V3.scale]. vec_eq lra. }
  split; [exact Hpre |].
  split; [exact (proj1 (quaternion_from_vectors_outcome (0, 0, 1) (0, 3, 4)) Hpre) |].
  split; [exact Hanti |].
  exact (proj2 (quaternion_from_vectors_outcome (0, 0, 1) (0, 0, -2))
           (or_intror (or_intror Hanti))).
Defined.

Lemma quaternion_from_vectors_self (v : vec3) :
  v <> V3.zero -> quaternion_from_vectors v v = Returns (1, 0, 0, 0).
Proof.
  intros Hv.
  assert (Hn : V3.norm v <> 0) by (intros H; apply Hv, V3_norm_zero_iff, H).
  pose proof (V3_unit_dot v Hn) as Haa.
  unfold quaternion_from_vectors.
  rewrite (@normalized_nonzero vec3 NpArray_vec3 v) by exact Hn. simpl bind.
  set (a := V3.div v (V3.norm v)) in *.
  replace (V3.add a a) with (V3.scale 2 a)
    by (destruct a as [[a0 a1] a2]; unfold V3.scale, V3.add; vec_eq ring).
  rewrite normalized_scale_pos by lra. rewrite (normalized_unit a Haa). simpl bind.
  apply f_equal. destruct a as [[a0 a1] a2]. unfold V3.dot, V3.cross in *.
  vec_eq (try ring). exact Haa.
Qed.

(** Between a nonzero vector and any positive multiple of it
    [quaternion_from_vectors] returns the identity quaternion. *)
Theorem quaternion_from_vectors_parallel (k : R) (v : vec3) :
  v <> V3.zero -> 0 < k ->
  quaternion_from_vectors v (V3.scale k v) = Returns (1, 0, 0, 0).
Proof.
  intros Hv Hk. rewrite <- (quaternion_from_vectors_self v Hv).
  unfold quaternion_from_vectors.
  rewrite normalized_scale_pos by exact Hk. reflexivity.
Qed.

Lemma quaternion_from_vectors_parallel_witness :
  (0, 0, 7) <> V3.zero /\ 0 < 3
  /\ quaternion_from_vectors (0, 0, 7) (V3.scale 3 (0, 0, 7)) = Returns (1, 0, 0, 0).
Proof.
  assert (Hv : (0, 0, 7) <> V3.zero).
  { unfold V3.zero. intros H. injection H as H. lra. }
  assert (Hk : 0 < 3) by lra.
  split; [exact Hv |]. split; [exact Hk |].
  exact (quaternion_from_vectors_parallel 3 (0, 0, 7) Hv Hk).
Defined.

(** The result of [quaternion_from_vectors] depends on the directions only:
    positive scalings of the arguments do not change it, and passing a vector
    already normalized by [normalized], as [control] does, is the same as
    passing the vector itself. *)
Theorem quaternion_from_vectors_directions (k k' : R) (u v v_hat : vec3) :
  (0 < k -> 0 < k' ->
   quaternion_from_vectors (V3.scale k u) (V3.scale k' v) = quaternion_from_vectors u v)
  /\ (normalized v = Returns v_hat ->
      quaternion_from_vectors u v_hat = quaternion_from_vectors u v).
Proof.
  split.
  - intros Hk Hk'. unfold quaternion_from_vectors.
    rewrite !normalized_scale_pos by assumption. reflexivity.
  - intros Hv.
    assert (Hhat : normalized v_hat = Returns v_hat).
    { revert Hv. unfold normalized. simpl np_norm. simpl np_div.
      destruct (Req_dec_T (V3.norm v) 0) as [Hz | Hnz]; [discriminate |].
      intros H. injection H as <-. apply normalized_unit, V3_unit_dot, Hnz. }
    unfold quaternion_from_vectors. rewrite Hhat, Hv. reflexivity.
Qed.

Lemma quaternion_from_vectors_directions_witness :
  0 < 2 /\ 0 < 5
  /\ quaternion_from_vectors (V3.scale 2 (0, 0, 1)) (V3.scale 5 (0, 3, 4))
     = quaternion_from_vectors (0, 0, 1) (0, 3, 4)
  /\ exists v_hat : vec3,
       normalized (0, 3, 4) = Returns v_hat
       /\ quaternion_from_vectors (0, 0, 1) v_hat = quaternion_from_vectors (0, 0, 1) (0, 3, 4).
Proof.
  assert (H2 : 0 < 2) by lra. assert (H5 : 0 < 5) by lra.
  assert (Hn : normalized (0, 3, 4) = Returns (V3.div (0, 3, 4) (V3.norm (0, 3, 4)))).
  { apply (@normalized_nonzero vec3 NpArray_vec3). simpl. intros H.
    apply V3_norm_zero_iff in H. unfold V3.zero in H. injection H as H _. lra. }
  destruct (quaternion_from_vectors_directions 2 5 (0, 0, 1) (0, 3, 4)
              (V3.div (0, 3, 4) (V3.norm (0, 3, 4)))) as [Hscale Hhat].
  split; [exact H2 |]. split; [exact H5 |]. split; [exact (Hscale H2 H5) |].
  eexists. split; [exact Hn | exact (Hhat Hn)].
Defined.

(** ** Rotation matrix *)

Lemma V4_norm_scalar_last (q0 q1 q2 q3 : R) :
  V4.norm (q1, q2, q3, q0) = V4.norm (q0, q1, q2, q3).
Proof. unfold V4.norm, V4.dot. f_equal. ring. Qed.

Lemma rotation_matrix_value (q0 q1 q2 q3 : R) :
  (q0, q1, q2, q3) <> V4.zero ->
  let n := V4.norm (q0, q1, q2, q3) in
  n <> 0
  /\ (q1 / n) * (q1 / n) + (q2 / n) * (q2 / n) + (q3 / n) * (q3 / n) + (q0 / n) * (q0 / n) = 1
  /\ rotation_matrix (q0, q1, q2, q3)
     = Returns (quat_matrix (q1 / n) (q2 / n) (q3 / n) (q0 / n)).
Proof.
  intros Hq n.
  assert (Hn : n <> 0) by (intros H; apply Hq, V4_norm_zero_iff, H).
  split; [exact Hn |]. split.
  - pose proof (V4_norm_sq (q0, q1, q2, q3)) as Hsq. fold n in Hsq.
    unfold V4.dot in Hsq. field_simplify_eq; [| exact Hn]. nra.
  - unfold rotation_matrix. rewrite V4_norm_scalar_last. fold n.
    destruct (Req_dec_T n 0) as [Hz | _]; [contradiction | reflexivity].
Qed.

Lemma quat_matrix_rotate (x y z w : R) (v : vec3) :
  pure (matvec3 (quat_matrix x y z w) v) = rotate (w, x, y, z) v.
Proof.
  destruct v as [[v0 v1] v2].
  cbv [quat_matrix matvec3 V3.dot pure rotate quat_mult quat_conjugate].
  vec_eq ring.
Qed.

Lemma quat_matrix_transpose (x y z w : R) (v : vec3) :
  x * x + y * y + z * z + w * w = 1 ->
  matvec3 (transpose3 (quat_matrix x y z w)) (matvec3 (quat_matrix x y z w) v) = v
  /\ matvec3 (quat_matrix x y z w) (matvec3 (transpose3 (quat_matrix x y z w)) v) = v.
Proof.
  intros HS. destruct v as [[v0 v1] v2].
  set (ss := x * x + y * y + z * z + w * w) in HS.
  cbv [quat_matrix transpose3 matvec3 V3.dot].
  split; vec_eq idtac.
  all: match goal with |- _ = ?vi => transitivity (ss * ss * vi) end;
    [unfold ss; ring | rewrite HS; ring].
Qed.

Lemma quat_matrix_isometry (x y z w : R) (v : vec3) :
  x * x + y * y + z * z + w * w = 1 ->
  V3.dot (matvec3 (quat_matrix x y z w) v) (matvec3 (quat_matrix x y z w) v) = V3.dot v v.
Proof.
  intros HS. set (ss := x * x + y * y + z * z + w * w) in HS.
  transitivity (ss * ss * V3.dot v v); [| rewrite HS; ring].
  destruct v as [[v0 v1] v2]. unfold ss.
  cbv [quat_matrix matvec3 V3.dot]. ring.
Qed.

(** The rotation matrix is refused with [ValueError] exactly for the zero
    quaternion.  For any other quaternion [q], scalar first as the state
    stores it, the matrix acts on a vector as conjugation by [q / |q|] under
    [quat_mult] does: the reordering to scipy's scalar-last convention in the
    calls is consistent with the quaternion algebra of the file. *)
Theorem rotation_matrix_is_conjugation (q : vec4) :
  (q = V4.zero -> rotation_matrix q = Raises ValueError)
  /\ (q <> V4.zero ->
      exists Rot : mat3,
        rotation_matrix q = Returns Rot
        /\ forall v : vec3, pure (matvec3 Rot v) = rotate (V4.div q (V4.norm q)) v).
Proof.
  split.
  - intros ->. apply rotation_matrix_zero.
  - intros Hq. destruct q as [[[q0 q1] q2] q3].
    destruct (rotation_matrix_value q0 q1 q2 q3 Hq) as (_ & _ & HR).
    eexists. split; [exact HR |]. intros v. apply quat_matrix_rotate.
Qed.

Lemma rotation_matrix_is_conjugation_witness :
  rotation_matrix V4.zero = Raises ValueError
  /\ (0, 0, 3, 4) <> V4.zero
  /\ exists Rot : mat3,
       rotation_matrix (0, 0, 3, 4) = Returns Rot
       /\ pure (matvec3 Rot (1, 0, 0))
          = rotate (V4.div (0, 0, 3, 4) (V4.norm (0, 0, 3, 4))) (1, 0, 0).
Proof.
  assert (Hq : (0, 0, 3, 4) <> V4.zero).
  { unfold V4.zero. intros H. injection H as H _. lra. }
  split; [exact (proj1 (rotation_matrix_is_conjugation V4.zero) eq_refl) |].
  split; [exact Hq |].
  destruct (proj2 (rotation_matrix_is_conjugation (0, 0, 3, 4)) Hq) as (Rot & HR & Hact).
  exists Rot. split; [exact HR | exact (Hact (1, 0, 0))].
Defined.

(** The matrix of a nonzero quaternion is orthogonal: its transpose undoes
    it on either side (world to body and back, as [control] and [update] use
    it), and it keeps the length of every vector. *)
Theorem rotation_matrix_orthogonal (q : vec4) (Rot : mat3) (v : vec3) :
  rotation_matrix q = Returns Rot ->
  matvec3 (transpose3 Rot) (matvec3 Rot v) = v
  /\ matvec3 Rot (matvec3 (transpose3 Rot) v) = v
  /\ V3.norm (matvec3 Rot v) = V3.norm v.
Proof.
  intros HR.
  assert (Hq : q <> V4.zero).
  { intros ->. rewrite rotation_matrix_zero in HR. discriminate HR. }
  destruct q as [[[q0 q1] q2] q3].
  destruct (rotation_matrix_value q0 q1 q2 q3 Hq) as (_ & HS & HR').
  rewrite HR' in HR. injection HR as <-.
  set (n := V4.norm (q0, q1, q2, q3)) in *.
  destruct (quat_matrix_transpose _ _ _ _ v HS) as [Hl Hr].
  split; [exact Hl |]. split; [exact Hr |].
  unfold V3.norm. f_equal. apply quat_matrix_isometry, HS.
Qed.

Lemma rotation_matrix_orthogonal_witness :
  rotation_matrix (1, 0, 0, 0) = Returns eye3
  /\ matvec3 (transpose3 eye3) (matvec3 eye3 (1, 2, 3)) = (1, 2, 3)
  /\ V3.norm (matvec3 eye3 (1, 2, 3)) = V3.norm (1, 2, 3).
Proof.
  split; [exact rotation_matrix_identity |].
  destruct (rotation_matrix_orthogonal (1, 0, 0, 0) eye3 (1, 2, 3) rotation_matrix_identity)
    as (Hl & _ & Hn).
  split; [exact Hl | exact Hn].
Defined.

(** ** Integrator: outcomes *)

Lemma quat_integrated_dot (s : State) (h : R) :
  V4.dot (quat_integrated s h) (quat_integrated s h)
  = V4.dot (state_quat s) (state_quat s)
    * (1 + h * h * V3.dot (state_omega s) (state_omega s) / 4).
Proof.
  unfold quat_integrated, q_dot.
  destruct (state_quat s) as [[[q0 q1] q2] q3], (state_omega s) as [[w0 w1] w2].
  cbv [pure quat_mult V4.scale V4.scale_r V4.add V4.dot V3.dot]. field.
Qed.

Lemma quat_integrated_nonzero (s : State) (h : R) :
  state_quat s <> V4.zero -> quat_integrated s h <> V4.zero.
Proof.
  intros Hq Hz.
  assert (H0 : V4.dot (quat_integrated s h) (quat_integrated s h) = 0).
  { rewrite Hz. unfold V4.zero, V4.dot. ring. }
  rewrite quat_integrated_dot in H0.
  assert (Hpos : 0 < V4.dot (state_quat s) (state_quat s)).
  { pose proof (V4_dot_nonneg (state_quat s)) as Hge.
    destruct (Req_dec_T (V4.dot (state_quat s) (state_quat s)) 0) as [He | Hne]; [| lra].
    exfalso. apply Hq, V4_norm_zero_iff. unfold V4.norm. rewrite He. apply sqrt_0. }
  pose proof (V3_dot_nonneg (state_omega s)) as Hw.
  assert (Hh : 0 <= h * h) by nra.
  assert (Hp : 0 <= h * h * V3.dot (state_omega s) (state_omega s)) by nra.
  nra.
Qed.

(** The Euler step of the orientation never shrinks it: the squared norm of
    the integrated quaternion is the old squared norm times
    [1 + dt^2 |omega|^2 / 4].  So the division that re-normalizes it divides
    by zero only if the orientation was zero before the step. *)
Theorem quat_integrated_norm_grows (s : State) (h : R) :
  V4.dot (quat_integrated s h) (quat_integrated s h)
  = V4.dot (state_quat s) (state_quat s)
    * (1 + h * h * V3.dot (state_omega s) (state_omega s) / 4)
  /\ (quat_integrated s h = V4.zero <-> state_quat s = V4.zero).
Proof.
  split; [apply quat_integrated_dot |]. split.
  - intros Hz. destruct (Req_dec_T (V4.norm (state_quat s)) 0) as [H | H].
    + apply V4_norm_zero_iff, H.
    + exfalso. apply (quat_integrated_nonzero s h); [| exact Hz].
      intros Hq. apply H, V4_norm_zero_iff, Hq.
  - apply quat_integrated_of_zero.
Qed.

(** [update] has three outcomes and no other: [ValueError] when the
    orientation quaternion is zero; otherwise [ZeroDivisionError] when the
    mass is zero; otherwise it returns the next vehicle.  It never produces a
    NaN orientation. *)
Theorem update_outcome (quad : Robot) (omegas_motor : vec4) (h : R) :
  (state_quat (state quad) = V4.zero -> update quad omegas_motor h = Raises ValueError)
  /\ (state_quat (state quad) <> V4.zero -> m quad = 0 ->
      update quad omegas_motor h = Raises ZeroDivisionError)
  /\ (state_quat (state quad) <> V4.zero -> m quad <> 0 ->
      exists quad' : Robot, update quad omegas_motor h = Returns quad').
Proof.
  split; [| split].
  - intros Hq. unfold update. rewrite Hq, rotation_matrix_zero. reflexivity.
  - intros Hq Hm. destruct (rotation_matrix_returns _ Hq) as [Rot HR].
    unfold update. rewrite HR. simpl bind. unfold py_inv.
    destruct (Req_dec_T (m quad) 0); [reflexivity | contradiction].
  - intros Hq Hm. apply update_returns; [exact Hm |].
    apply quat_integrated_nonzero, Hq.
Qed.

Lemma update_outcome_witness :
  update (set_state default_robot (mkState (0, 0, 0) (0, 0, 0) V4.zero (0, 0, 0)))
    (50, 50, 50, 50) dt = Raises ValueError
  /\ state_quat (state default_robot) <> V4.zero
  /\ m default_robot <> 0
  /\ exists quad' : Robot, update default_robot (50, 50, 50, 50) dt = Returns quad'.
Proof.
  assert (Hq : state_quat (state default_robot) <> V4.zero).
  { simpl. unfold V4.zero. intros H. injection H as H. lra. }
  assert (Hm : m default_robot <> 0) by (simpl; lra).
  split.
  - exact (proj1 (update_outcome
                    (set_state default_robot (mkState (0, 0, 0) (0, 0, 0) V4.zero (0, 0, 0)))
                    (50, 50, 50, 50) dt) eq_refl).
  - split; [exact Hq |]. split; [exact Hm |].
    exact (proj2 (proj2 (update_outcome default_robot (50, 50, 50, 50) dt)) Hq Hm).
Defined.

(** [update_wind] checks in this order: [ValueError] for a zero orientation
    quaternion (also when the wind attributes are missing); then
    [AttributeError] when [F0] or [omega_w] was never assigned; then
    [ZeroDivisionError] for a zero mass; otherwise it returns the next
    vehicle, and never a NaN orientation. *)
Theorem update_wind_outcome (quad : Robot) (omegas_motor : vec4) (h : R) :
  (state_quat (state quad) = V4.zero ->
   update_wind quad omegas_motor h = Raises ValueError)
  /\ (state_quat (state quad) <> V4.zero -> F0 quad = None \/ omega_w quad = None ->
      update_wind quad omegas_motor h = Raises AttributeError)
  /\ (state_quat (state quad) <> V4.zero -> F0 quad <> None -> omega_w quad <> None ->
      m quad = 0 -> update_wind quad omegas_motor h = Raises ZeroDivisionError)
  /\ (state_quat (state quad) <> V4.zero -> F0 quad <> None -> omega_w quad <> None ->
      m quad <> 0 -> exists quad' : Robot, update_wind quad omegas_motor h = Returns quad').
Proof.
  split; [| split; [| split]].
  - intros Hq. unfold update_wind. rewrite Hq, rotation_matrix_zero. reflexivity.
  - intros Hq Hattr. destruct (rotation_matrix_returns _ Hq) as [Rot HR].
    unfold update_wind. rewrite HR. simpl bind.
    destruct (F0 quad) as [f0 |]; [| reflexivity]. simpl.
    destruct Hattr as [Hf | Hw]; [discriminate Hf |]. rewrite Hw. reflexivity.
  - intros Hq HF Hw Hm. destruct (rotation_matrix_returns _ Hq) as [Rot HR].
    unfold update_wind. rewrite HR. simpl bind.
    destruct (F0 quad) as [f0 |]; [| contradiction]. simpl.
    destruct (omega_w quad) as [w |]; [| contradiction]. simpl.
    unfold py_inv. destruct (Req_dec_T (m quad) 0); [reflexivity | contradiction].
  - intros Hq HF Hw Hm.
    destruct (F0 quad) as [f0 |] eqn:EF; [| contradiction].
    destruct (omega_w quad) as [w |] eqn:Ew; [| contradiction].
    apply (update_wind_returns quad omegas_motor h f0 w); try assumption.
    apply quat_integrated_nonzero, Hq.
Qed.

Lemma update_wind_outcome_witness :
  state_quat (state default_robot) <> V4.zero
  /\ update_wind default_robot (50, 50, 50, 50) dt = Raises AttributeError
  /\ exists quad' : Robot, update_wind (sweep_start 1 PI) (50, 50, 50, 50) dt = Returns quad'.
Proof.
  assert (Hq : state_quat (state default_robot) <> V4.zero).
  { simpl. unfold V4.zero. intros H. injection H as H. lra. }
  destruct (update_wind_outcome default_robot (50, 50, 50, 50) dt) as (_ & Hattr & _).
  destruct (update_wind_outcome (sweep_start 1 PI) (50, 50, 50, 50) dt) as (_ & _ & _ & Hret).
  split; [exact Hq |]. split; [exact (Hattr Hq (or_introl eq_refl)) |].
  apply (Hret (sweep_start_quat 1 PI)).
  - simpl. discriminate.
  - simpl. discriminate.
  - exact (sweep_start_mass 1 PI).
Defined.

(** ** Integrator: what a step changes *)

Lemma update_step (quad quad' : Robot) (omegas_motor : vec4) (h : R) :
  update quad omegas_motor h = Returns quad' ->
  exists Rot : mat3,
    rotation_matrix (state_quat (state quad)) = Returns Rot
    /\ m quad <> 0
    /\ same_parameters quad quad'
    /\ time quad' = time quad + h
    /\ state_pos (state quad')
       = V3.add (state_pos (state quad)) (V3.scale_r (state_vel (state quad)) h)
    /\ state_vel (state quad')
       = V3.add (state_vel (state quad))
           (V3.scale_r
              (V3.add (matvec3 (scale_mat3 (1 / m quad) Rot)
                         (0, 0, rotor_thrust quad omegas_motor)) gravity) h)
    /\ state_quat (state quad')
       = V4.div (quat_integrated (state quad) h) (V4.norm (quat_integrated (state quad) h))
    /\ wind_force quad' = wind_force quad /\ phi quad' = phi quad.
Proof.
  unfold update.
  destruct (rotation_matrix _) as [Rot | |]; simpl; try discriminate.
  unfold py_inv. destruct (Req_dec_T (m quad) 0) as [Hz | Hm]; simpl; try discriminate.
  unfold integrate, normalized. simpl np_norm. simpl np_div.
  match goal with |- context [Req_dec_T ?n 0] => destruct (Req_dec_T n 0) end;
    simpl; try discriminate.
  intros H. injection H as <-. exists Rot. simpl.
  unfold same_parameters. simpl. repeat split; try reflexivity. exact Hm.
Qed.

Lemma update_wind_step (quad quad' : Robot) (omegas_motor : vec4) (h : R) :
  update_wind quad omegas_motor h = Returns quad' ->
  exists (Rot : mat3) (f0 : vec3) (w : R),
    rotation_matrix (state_quat (state quad)) = Returns Rot
    /\ F0 quad = Some f0 /\ omega_w quad = Some w
    /\ m quad <> 0
    /\ same_parameters quad quad'
    /\ time quad' = time quad + h
    /\ state_pos (state quad')
       = V3.add (state_pos (state quad)) (V3.scale_r (state_vel (state quad)) h)
    /\ state_vel (state quad')
       = V3.add (state_vel (state quad))
           (V3.scale_r
              (V3.add (V3.scale (1 / m quad)
                         (V3.add (matvec3 Rot (0, 0, rotor_thrust quad omegas_motor))
                            (V3.scale_r f0 (sin (w * time quad + 0))))) gravity) h)
    /\ state_quat (state quad')
       = V4.div (quat_integrated (state quad) h) (V4.norm (quat_integrated (state quad) h))
    /\ wind_force quad' = Some (V3.scale_r f0 (sin (w * time quad + 0)))
    /\ phi quad' = Some 0.
Proof.
  unfold update_wind.
  destruct (rotation_matrix _) as [Rot | |]; simpl; try discriminate.
  destruct (F0 quad) as [f0 |] eqn:EF; simpl; try discriminate.
  destruct (omega_w quad) as [w |] eqn:Ew; simpl; try discriminate.
  unfold py_inv. destruct (Req_dec_T (m quad) 0) as [Hz | Hm]; simpl; try discriminate.
  unfold integrate, normalized. simpl np_norm. simpl np_div.
  match goal with |- context [Req_dec_T ?n 0] => destruct (Req_dec_T n 0) end;
    simpl; try discriminate.
  intros H. injection H as <-. exists Rot, f0, w. simpl.
  unfold same_parameters. simpl. rewrite EF, Ew. repeat split; try reflexivity. exact Hm.
Qed.



(** Free fall: with all four rotors stopped a completed step of [update]
    changes the velocity by [(0, 0, -9.81 * dt)], whatever the orientation
    and the mass. *)
Theorem update_free_fall (quad quad' : Robot) (h : R) :
  update quad (0, 0, 0, 0) h = Returns quad' ->
  state_vel (state quad')
  = V3.add (state_vel (state quad)) (0, 0, - (981 / 100) * h).
Proof.
  intros H. apply update_step in H.
  destruct H as (Rot & _ & _ & _ & _ & _ & Hv & _). rewrite Hv. f_equal.
  destruct Rot as [[[[r00 r01] r02] [[r10 r11] r12]] [[r20 r21] r22]].
  cbv [rotor_thrust sq scale_mat3 V3.scale matvec3 V3.dot gravity V3.add V3.scale_r].
  vec_eq ring.
Qed.

Lemma update_free_fall_witness :
  exists quad' : Robot,
    update default_robot (0, 0, 0, 0) dt = Returns quad'
    /\ state_vel (state quad')
       = V3.add (state_vel (state default_robot)) (0, 0, - (981 / 100) * dt).
Proof.
  assert (Hq : state_quat (state default_robot) <> V4.zero).
  { simpl. unfold V4.zero. intros H. injection H as H. lra. }
  assert (Hm : m default_robot <> 0) by (simpl; lra).
  destruct (update_returns default_robot (0, 0, 0, 0) dt Hm
              (quat_integrated_nonzero _ dt Hq)) as [quad' H].
  exists quad'. split; [exact H | exact (update_free_fall default_robot quad' dt H)].
Defined.

(** The wind enters a step only as an impulse on the velocity.  When
    [update_wind] completes, [update] completes from the same vehicle too;
    the two results have the same position, orientation, angular velocity
    and clock, and the velocity of [update_wind] is that of [update] plus
    [dt / m] times the wind force [F0 * sin(omega_w * t)] it stored, each
    component of which is bounded by that of [F0]. *)
Theorem update_wind_impulse (quad windy : Robot) (omegas_motor : vec4) (h : R) :
  update_wind quad omegas_motor h = Returns windy ->
  exists (plain : Robot) (f0 wf : vec3) (w : R),
    update quad omegas_motor h = Returns plain
    /\ F0 quad = Some f0 /\ omega_w quad = Some w
    /\ wf = V3.scale_r f0 (sin (w * time quad + 0))
    /\ wind_force windy = Some wf
    /\ state_vel (state windy) = V3.add (state_vel (state plain)) (V3.scale (h / m quad) wf)
    /\ state_pos (state windy) = state_pos (state plain)
    /\ state_quat (state windy) = state_quat (state plain)
    /\ state_omega (state windy) = state_omega (state plain)
    /\ time windy = time plain
    /\ (let '(f0x, f0y, f0z) := f0 in
        let '(wx, wy, wz) := wf in
        Rabs wx <= Rabs f0x /\ Rabs wy <= Rabs f0y /\ Rabs wz <= Rabs f0z).
Proof.
  intros Hw. pose proof (update_wind_inv _ _ _ _ Hw) as (_ & Hom & _).
  apply update_wind_step in Hw.
  destruct Hw as (Rot & f0 & w & HR & HF & Hwf & Hm & _ & Ht & Hp & Hv & Hq & Hwind & _).
  assert (Hqz : state_quat (state quad) <> V4.zero).
  { intros H. rewrite H, rotation_matrix_zero in HR. discriminate HR. }
  destruct (update_returns quad omegas_motor h Hm (quat_integrated_nonzero _ h Hqz))
    as [plain Hplain].
  pose proof (update_inv _ _ _ _ Hplain) as (_ & Hom' & _).
  pose proof (update_step _ _ _ _ Hplain)
    as (Rot' & HR' & _ & _ & Ht' & Hp' & Hv' & Hq' & _).
  rewrite HR in HR'. injection HR' as <-.
  exists plain, f0, (V3.scale_r f0 (sin (w * time quad + 0))), w.
  split; [exact Hplain |]. split; [exact HF |]. split; [exact Hwf |].
  split; [reflexivity |]. split; [exact Hwind |].
  split; [| split; [congruence | split; [congruence | split; [congruence | split;
           [congruence |]]]]].
  - rewrite Hv, Hv'.
    destruct Rot as [[[[r00 r01] r02] [[r10 r11] r12]] [[r20 r21] r22]].
    destruct f0 as [[f0x f0y] f0z], (state_vel (state quad)) as [[v0 v1] v2].
    cbv [scale_mat3 V3.scale matvec3 V3.dot gravity V3.add V3.scale_r].
    vec_eq (field; exact Hm).
  - destruct f0 as [[f0x f0y] f0z]. cbv [V3.scale_r].
    pose proof (SIN_bound (w * time quad + 0)) as [Hlo Hhi].
    assert (Hs : Rabs (sin (w * time quad + 0)) <= 1) by (apply Rabs_le; lra).
    repeat split; rewrite Rabs_mult;
      (rewrite <- (Rmult_1_r (Rabs _)) at 2; apply Rmult_le_compat_l;
       [apply Rabs_pos | exact Hs]).
Qed.

Lemma update_wind_impulse_witness :
  exists windy plain : Robot,
    update_wind (sweep_start 2 PI) (50, 50, 50, 50) dt = Returns windy
    /\ update (sweep_start 2 PI) (50, 50, 50, 50) dt = Returns plain
    /\ state_pos (state windy) = state_pos (state plain)
    /\ time windy = time plain.
Proof.
  destruct (update_wind_returns (sweep_start 2 PI) (50, 50, 50, 50) dt (2, 0, 0) PI
              eq_refl eq_refl (sweep_start_mass 2 PI) (sweep_start_quat_integrated 2 PI dt))
    as [windy Hw].
  destruct (update_wind_impulse (sweep_start 2 PI) windy (50, 50, 50, 50) dt Hw)
    as (plain & f0 & wf & w & Hplain & _ & _ & _ & _ & _ & Hp & _ & _ & Ht & _).
  exists windy, plain. repeat split; assumption.
Defined.

(** ** Mixer *)

(** The squared rotor speeds the mixer computes solve the linear system of
    the mixer matrix: [B @ omega_motor_square] is the commanded
    [(thrust, tau_x, tau_y, tau_z)].  When the thrust constant, the drag
    constant or the arm length is zero the matrix is singular and the
    inversion raises [LinAlgError]. *)
Theorem mixer_solves_command (quad : Robot) (thrust tau_x tau_y tau_z : R) :
  (constant_thrust quad = 0 \/ arm_length quad = 0 \/ constant_drag quad = 0 ->
   omega_motor_square quad thrust (tau_x, tau_y, tau_z) = Raises LinAlgError)
  /\ (mixer_regular quad ->
      exists squares : vec4,
        omega_motor_square quad thrust (tau_x, tau_y, tau_z) = Returns squares
        /\ matvec4 (mixer_matrix quad) squares = (thrust, tau_x, tau_y, tau_z)).
Proof.
  split.
  - intros Hsing. unfold omega_motor_square, linalg_inv4.
    destruct (Req_dec_T (det4 (mixer_matrix quad)) 0) as [_ | Hnz]; [reflexivity |].
    exfalso. apply Hnz. rewrite mixer_matrix_det.
    destruct Hsing as [-> | [-> | ->]]; ring.
  - intros Hreg. eexists. split; [apply omega_motor_square_solution, Hreg |].
    destruct Hreg as (Ht & Hl & Hd).
    cbv [mixer_matrix matvec4 V4.dot]. vec_eq (field; repeat split; assumption).
Qed.

Lemma mixer_solves_command_witness :
  mixer_regular default_robot
  /\ (exists squares : vec4,
         omega_motor_square default_robot 4 (1 / 2, 0, 0) = Returns squares
         /\ matvec4 (mixer_matrix default_robot) squares = (4, 1 / 2, 0, 0))
  /\ omega_motor_square (set_wind default_robot (0, 0, 0) 0) 4 (1 / 2, 0, 0)
     <> Raises LinAlgError.
Proof.
  split; [exact default_robot_regular |].
  split; [exact (proj2 (mixer_solves_command default_robot 4 (1 / 2) 0 0)
                   default_robot_regular) |].
  destruct (proj2 (mixer_solves_command (set_wind default_robot (0, 0, 0) 0) 4 (1 / 2) 0 0)
              default_robot_regular) as (squares & H & _).
  rewrite H. discriminate.
Defined.

(** The rotor speeds [control]'s last lines return are non-negative, their
    squares are the mixer's solution with the negative entries replaced by 0,
    and for a positive thrust constant the thrust they produce in the
    integrator is never below the commanded thrust. *)
Theorem mixer_clips_up (quad : Robot) (thrust : R) (tau : vec3) (omegas : vec4) :
  mixer_regular quad -> 0 < constant_thrust quad ->
  mixer quad thrust tau = Returns omegas ->
  exists squares : vec4,
    omega_motor_square quad thrust tau = Returns squares
    /\ nonneg4 omegas
    /\ (let '(s0, s1, s2, s3) := squares in
        let '(o0, o1, o2, o3) := omegas in
        sq o0 = clip0 s0 /\ sq o1 = clip0 s1 /\ sq o2 = clip0 s2 /\ sq o3 = clip0 s3)
    /\ thrust <= rotor_thrust quad omegas.
Proof.
  intros Hreg Hkt. unfold mixer. destruct tau as [[tau_x tau_y] tau_z].
  pose proof (omega_motor_square_solution quad thrust tau_x tau_y tau_z Hreg) as Hsol.
  simpl in Hsol. rewrite Hsol. simpl bind. intros H. injection H as <-.
  eexists. split; [reflexivity |].
  split; [cbv [nonneg4 sqrt_clip]; repeat split; apply sqrt_pos |].
  destruct Hreg as (Ht & Hl & Hd).
  assert (Hsq : forall x : R, sq (sqrt (clip0 x)) = clip0 x).
  { intros x. unfold sq. apply sqrt_sqrt, clip0_nonneg. }
  assert (Hge : forall x : R, x <= clip0 x).
  { intros x. unfold clip0. destruct (Rlt_dec x 0); lra. }
  cbv [sqrt_clip]. split; [repeat split; apply Hsq |].
  unfold rotor_thrust. rewrite !Hsq.
  match goal with
  | |- _ <= _ * (clip0 ?s0 + clip0 ?s1 + clip0 ?s2 + clip0 ?s3) =>
      pose proof (Hge s0); pose proof (Hge s1); pose proof (Hge s2); pose proof (Hge s3);
      apply Rle_trans with (constant_thrust quad * (s0 + s1 + s2 + s3));
        [right; field; repeat split; assumption |]
  end.
  apply Rmult_le_compat_l; lra.
Qed.

Lemma mixer_clips_up_witness :
  mixer_regular default_robot /\ 0 < constant_thrust default_robot
  /\ exists omegas : vec4,
       mixer default_robot 0 (1 / 2, 0, 0) = Returns omegas
       /\ nonneg4 omegas /\ 0 <= rotor_thrust default_robot omegas.
Proof.
  assert (Hkt : 0 < constant_thrust default_robot) by (simpl; lra).
  split; [exact default_robot_regular |]. split; [exact Hkt |].
  assert (Hmix : exists omegas : vec4, mixer default_robot 0 (1 / 2, 0, 0) = Returns omegas).
  { unfold mixer. rewrite omega_motor_square_solution by exact default_robot_regular.
    simpl bind. eexists. reflexivity. }
  destruct Hmix as [omegas Hmix].
  destruct (mixer_clips_up default_robot 0 (1 / 2, 0, 0) omegas default_robot_regular Hkt Hmix)
    as (squares & _ & Hnn & _ & Hle).
  exists omegas. split; [exact Hmix |]. split; [exact Hnn | exact Hle].
Defined.

(** ** Controller: outcomes *)



(** ** Hover *)

Lemma bind_returns {A B : Type} (a : A) (k : A -> outcome B) : bind (Returns a) k = k a.
Proof. reflexivity. Qed.

Lemma hover_control (quad : Robot) (p : vec3) :
  state quad = hover_state p ->
  0 < m quad -> 0 < constant_thrust quad ->
  arm_length quad <> 0 -> constant_drag quad <> 0 ->
  control quad p
  = Returns (hover_speed quad, hover_speed quad, hover_speed quad, hover_speed quad).
Proof.
  intros Hs Hm Hkt Hl Hkd.
  assert (Hreg : mixer_regular quad) by (unfold mixer_regular; repeat split; lra || assumption).
  assert (Hf : desired_force quad p = V3.scale (m quad * (981 / 100)) (0, 0, 1)).
  { unfold desired_force. rewrite Hs. destruct p as [[p0 p1] p2].
    cbv [hover_state state_pos state_vel V3.sub V3.scale V3.add]. vec_eq ring. }
  assert (Hunit : V3.dot (0, 0, 1) (0, 0, 1) = 1) by (cbv [V3.dot]; ring).
  assert (Hup : (0, 0, 1) <> V3.zero).
  { unfold V3.zero. intros H. injection H as H. lra. }
  unfold control. rewrite Hf. rewrite Hs. cbv [hover_state state_quat].
  rewrite rotation_matrix_identity. rewrite bind_returns.
  rewrite normalized_scale_pos by nra. rewrite (normalized_unit _ Hunit). rewrite bind_returns.
  rewrite (quaternion_from_vectors_self _ Hup). rewrite bind_returns.
  assert (Hthrust : Rmax 0 (V3.z (matvec3 (transpose3 eye3)
                                    (V3.scale (m quad * (981 / 100)) (0, 0, 1))))
                    = m quad * (981 / 100)).
  { cbv [eye3 transpose3 matvec3 V3.dot V3.scale V3.z].
    rewrite Rmax_right by nra. ring. }
  cbv beta.
  rewrite Hthrust.
  assert (Hqerr : shortest_path (quat_mult (quat_conjugate (1, 0, 0, 0)) (1, 0, 0, 0))
                  = quat_mult (quat_conjugate (1, 0, 0, 0)) (1, 0, 0, 0)).
  { unfold shortest_path.
    destruct (Rlt_dec _ 0) as [Hneg | _]; [| reflexivity].
    exfalso. cbv [quat_conjugate quat_mult scalar_part] in Hneg. lra. }
  rewrite Hqerr.
  assert (Htau : attitude_torque quad (quat_mult (quat_conjugate (1, 0, 0, 0)) (1, 0, 0, 0))
                 = (0, 0, 0)).
  { unfold attitude_torque. rewrite Hs.
    destruct (J quad) as [[[[j00 j01] j02] [[j10 j11] j12]] [[j20 j21] j22]].
    cbv [hover_state state_omega quat_conjugate quat_mult vector_part
           V3.scale V3.sub V3.add V3.cross matvec3 V3.dot].
    vec_eq ring. }
  rewrite Htau. unfold mixer.
  rewrite omega_motor_square_solution by exact Hreg. rewrite bind_returns.
  apply f_equal. unfold hover_speed, sqrt_clip.
  vec_eq idtac.
  all: f_equal; rewrite clip0_id;
    [field; split; lra
    | match goal with |- 0 <= ?x =>
        replace x with (m quad * (981 / 100) / (4 * constant_thrust quad))
          by (field; split; lra) end;
      apply Rlt_le, Rdiv_lt_0_compat; nra].
Qed.

Lemma hover_update (quad : Robot) (p : vec3) (h : R) :
  state quad = hover_state p ->
  0 < m quad -> 0 < constant_thrust quad ->
  exists quad' : Robot,
    update quad (hover_speed quad, hover_speed quad, hover_speed quad, hover_speed quad) h
    = Returns quad'
    /\ state quad' = state quad
    /\ time quad' = time quad + h.
Proof.
  intros Hs Hm Hkt.
  assert (Hq : state_quat (state quad) <> V4.zero).
  { rewrite Hs. simpl. unfold V4.zero. intros H. injection H as H. lra. }
  assert (Hm' : m quad <> 0) by lra.
  destruct (update_returns quad
              (hover_speed quad, hover_speed quad, hover_speed quad, hover_speed quad) h
              Hm' (quat_integrated_nonzero _ h Hq)) as [quad' Hstep].
  exists quad'. split; [exact Hstep |].
  pose proof (update_inv _ _ _ _ Hstep) as (_ & Hw & _).
  pose proof (update_step _ _ _ _ Hstep) as (Rot & HR & _ & _ & Ht & Hp & Hv & Hqn & _).
  split; [| exact Ht].
  assert (Hsq : sq (hover_speed quad) = m quad * (981 / 100) / (4 * constant_thrust quad)).
  { unfold sq, hover_speed. apply sqrt_sqrt.
    apply Rlt_le, Rdiv_lt_0_compat; nra. }
  rewrite Hs in HR. cbv [hover_state state_quat] in HR.
  rewrite rotation_matrix_identity in HR. injection HR as <-.
  assert (Hqi : quat_integrated (state quad) h = (1, 0, 0, 0)).
  { rewrite Hs.
    cbv [hover_state quat_integrated q_dot state_quat state_omega pure quat_mult
           V4.scale V4.scale_r V4.add].
    vec_eq ring. }
  assert (Hn1 : V4.norm (1, 0, 0, 0) = 1).
  { unfold V4.norm, V4.dot. replace (1 * 1 + 0 * 0 + 0 * 0 + 0 * 0) with 1 by ring.
    apply sqrt_1. }
  rewrite Hqi, Hn1 in Hqn.
  destruct (state quad') as [pos' vel' quat' omega'].
  rewrite Hs in *. cbv [hover_state state_pos state_vel state_quat state_omega] in *.
  subst pos' vel' quat' omega'. unfold hover_state.
  destruct p as [[p0 p1] p2]. unfold omega_dot.
  destruct (J quad) as [[[[j00 j01] j02] [[j10 j11] j12]] [[j20 j21] j22]].
  destruct (J_inv quad) as [[[[i00 i01] i02] [[i10 i11] i12]] [[i20 i21] i22]].
  cbv [rotor_torque rotor_thrust V3.add V3.scale_r V3.scale V3.cross matvec3
         scale_mat3 eye3 V3.dot V4.div gravity].
  rewrite Hsq. f_equal; vec_eq (field; lra).
Qed.

(** Hover is a fixed point of the control loop.  For a vehicle at rest and
    level at the point it is asked to hold, with positive mass and thrust
    constant and a regular mixer, [control] returns the same speed
    [sqrt(m * 9.81 / (4 * k_thrust))] for the four rotors, and a step of
    [update] with these speeds leaves all 13 state components as they were
    and advances the clock by the timestep. *)
Theorem hover_fixed_point (quad : Robot) (p : vec3) (h : R) :
  state quad = hover_state p ->
  0 < m quad -> 0 < constant_thrust quad ->
  arm_length quad <> 0 -> constant_drag quad <> 0 ->
  exists (omegas : vec4) (quad' : Robot),
    omegas = (hover_speed quad, hover_speed quad, hover_speed quad, hover_speed quad)
    /\ control quad p = Returns omegas
    /\ update quad omegas h = Returns quad'
    /\ state quad' = state quad
    /\ time quad' = time quad + h.
Proof.
  intros Hs Hm Hkt Hl Hkd.
  destruct (hover_update quad p h Hs Hm Hkt) as (quad' & Hstep & Hstate & Htime).
  eexists _, quad'. split; [reflexivity |].
  split; [apply hover_control; assumption |].
  split; [exact Hstep |]. split; [exact Hstate | exact Htime].
Qed.

Lemma hover_fixed_point_witness :
  let quad := set_state default_robot (hover_state (3, 4, 5)) in
  state quad = hover_state (3, 4, 5)
  /\ 0 < m quad /\ 0 < constant_thrust quad
  /\ arm_length quad <> 0 /\ constant_drag quad <> 0
  /\ exists (omegas : vec4) (quad' : Robot),
       control quad (3, 4, 5) = Returns omegas
       /\ update quad omegas dt = Returns quad'
       /\ state quad' = state quad.
Proof.
  intros quad.
  assert (Hm : 0 < m quad) by (simpl; lra).
  assert (Hkt : 0 < constant_thrust quad) by (simpl; lra).
  assert (Hl : arm_length quad <> 0) by (simpl; lra).
  assert (Hkd : constant_drag quad <> 0) by (simpl; lra).
  split; [reflexivity |]. split; [exact Hm |]. split; [exact Hkt |].
  split; [exact Hl |]. split; [exact Hkd |].
  destruct (hover_fixed_point quad (3, 4, 5) dt eq_refl Hm Hkt Hl Hkd)
    as (omegas & quad' & _ & Hc & Hu & Hst & _).
  exists omegas, quad'. split; [exact Hc |]. split; [exact Hu | exact Hst].
Defined.

(** ** Plot points *)

Lemma Some_inj {A : Type} (a b : A) : Some a = Some b -> a = b.
Proof. intros H. injection H as H. exact H. Qed.

(** [get_pos_full_quadcopter] raises [ValueError] for a zero orientation
    quaternion and otherwise returns one world point for each row of
    [body_frame].  The body is moved rigidly: the point of a row
    [(x, y, z, 1)] is as far from the vehicle position as [(x, y, z)] is from
    the origin, so the rotors stay one arm length away and the row
    [(0, 0, 0, 1)] is the position itself. *)
Theorem get_pos_full_quadcopter_rigid (quad : Robot) :
  (state_quat (state quad) = V4.zero ->
   get_pos_full_quadcopter quad = Raises ValueError)
  /\ (state_quat (state quad) <> V4.zero ->
      exists pos_full_quad : list vec3,
        get_pos_full_quadcopter quad = Returns pos_full_quad
        /\ length pos_full_quad = length (body_frame quad)
        /\ forall (i : nat) (x y z : R) (pt : vec3),
             nth_error (body_frame quad) i = Some (x, y, z, 1) ->
             nth_error pos_full_quad i = Some pt ->
             V3.norm (V3.sub pt (state_pos (state quad))) = V3.norm (x, y, z)
             /\ ((x, y, z) = V3.zero -> pt = state_pos (state quad))).
Proof.
  split.
  - intros Hq. unfold get_pos_full_quadcopter. rewrite Hq, rotation_matrix_zero. reflexivity.
  - intros Hq. unfold get_pos_full_quadcopter.
    destruct (state_quat (state quad)) as [[[q0 q1] q2] q3] eqn:Eq.
    destruct (rotation_matrix_value q0 q1 q2 q3 Hq) as (_ & HS & HR).
    rewrite HR. rewrite bind_returns. eexists. split; [reflexivity |].
    split; [apply length_map |].
    intros i x y z pt Hb Hpt.
    set (Rot := quat_matrix _ _ _ _) in *.
    rewrite nth_error_map, Hb in Hpt.
    assert (Hval : pt = V3.add (matvec3 Rot (x, y, z))
                          (V3.scale_r (state_pos (state quad)) 1)).
    { symmetry. apply Some_inj. exact Hpt. }
    subst pt.
    assert (Hsub : V3.sub (V3.add (matvec3 Rot (x, y, z))
                             (V3.scale_r (state_pos (state quad)) 1))
                     (state_pos (state quad)) = matvec3 Rot (x, y, z)).
    { destruct (matvec3 Rot (x, y, z)) as [[r0 r1] r2].
      destruct (state_pos (state quad)) as [[p0 p1] p2].
      cbv [V3.sub V3.add V3.scale_r]. vec_eq ring. }
    split.
    + rewrite Hsub. unfold V3.norm. f_equal. apply quat_matrix_isometry, HS.
    + intros Hz. injection Hz as -> -> ->.
      destruct (state_pos (state quad)) as [[p0 p1] p2].
      subst Rot. cbv [quat_matrix matvec3 V3.dot V3.add V3.scale_r]. vec_eq ring.
Qed.

Lemma get_pos_full_quadcopter_rigid_witness :
  state_quat (state default_robot) <> V4.zero
  /\ exists pos_full_quad : list vec3,
       get_pos_full_quadcopter default_robot = Returns pos_full_quad
       /\ length pos_full_quad = 6%nat
       /\ forall pt : vec3, nth_error pos_full_quad 4 = Some pt -> pt = (1, 0, 0).
Proof.
  assert (Hq : state_quat (state default_robot) <> V4.zero).
  { simpl. unfold V4.zero. intros H. injection H as H. lra. }
  split; [exact Hq |].
  destruct (proj2 (get_pos_full_quadcopter_rigid default_robot) Hq)
    as (pos_full_quad & Hget & Hlen & Hrigid).
  exists pos_full_quad. split; [exact Hget |]. split; [exact Hlen |].
  intros pt Hpt.
  exact (proj2 (Hrigid 4%nat 0 0 0 pt eq_refl Hpt) eq_refl).
Defined.

(** ** Reference trajectory *)

(** The point [control_propellers] asks the vehicle to hold at time [t] is
    [(cos(pi t / T), sin(2 pi t / T), 0)] with [T = 1.5]: it stays in the
    plane [z = 0] within the square [[-1, 1] x [-1, 1]] and comes back after
    [2 T = 3] seconds. *)
Theorem desired_position_periodic_bounded (quad : Robot) (t : R) :
  control_propellers quad
  = bind (control quad (desired_position (time quad)))
      (fun prop_thrusts => update_wind quad prop_thrusts dt)
  /\ desired_position t = (cos (PI * t / (15 / 10)), sin (2 * PI * t / (15 / 10)), 0)
  /\ desired_position (t + 3) = desired_position t
  /\ (let '(x, y, z) := desired_position t in
      -1 <= x <= 1 /\ -1 <= y <= 1 /\ z = 0).
Proof.
  split; [reflexivity |]. split; [| split].
  - unfold desired_position. vec_eq (try reflexivity). f_equal. field.
  - unfold desired_position. vec_eq (try reflexivity).
    + replace (2 * PI * (t + 3) / (15 / 10) / 2)
        with (2 * PI * t / (15 / 10) / 2 + 2 * INR 1 * PI) by (simpl; field).
      apply cos_period.
    + replace (2 * PI * (t + 3) / (15 / 10))
        with (2 * PI * t / (15 / 10) + 2 * INR 2 * PI) by (simpl; field).
      apply sin_period.
  - unfold desired_position. split; [apply COS_bound |]. split; [apply SIN_bound | reflexivity].
Qed.

(** ** Tick loop *)

Lemma control_propellers_step (quad quad' : Robot) :
  control_propellers quad = Returns quad' ->
  exists (f0 : vec3) (w : R),
    F0 quad = Some f0 /\ omega_w quad = Some w
    /\ F0 quad' = Some f0 /\ omega_w quad' = Some w
    /\ time quad' = time quad + dt
    /\ wind_force quad' = Some (V3.scale_r f0 (sin (w * time quad + 0)))
    /\ V4.norm (state_quat (state quad')) = 1.
Proof.
  unfold control_propellers.
  destruct (control quad _) as [prop_thrusts | |]; simpl; try discriminate.
  intros H. pose proof (update_wind_inv _ _ _ _ H) as (Hn & _).
  apply update_wind_step in H.
  destruct H as (Rot & f0 & w & _ & HF & Hw & _ & Hpar & Ht & _ & _ & _ & Hwf & _).
  destruct Hpar as (_ & _ & _ & _ & _ & _ & _ & _ & HF' & Hw').
  exists f0, w. rewrite HF', Hw'. repeat split; assumption.
Qed.

Lemma record_sample_row (quad : Robot) (pos_full_quad : list vec3) (row : sample) :
  record_sample quad = Returns (pos_full_quad, row) ->
  sample_quat row = state_quat (state quad)
  /\ sample_vel row = state_vel (state quad)
  /\ wind_force quad = Some (sample_wind_force row).
Proof.
  unfold record_sample.
  destruct (get_pos_full_quadcopter quad); simpl; try discriminate.
  destruct (wind_force quad) as [wf |]; simpl; try discriminate.
  intros H. injection H as _ <-. simpl. repeat split.
Qed.

Lemma run_ticks_prefix (ticks : nat) :
  forall (quad : Robot) (trajectory : list (list vec3)) (data : list sample),
  exists new_rows : list sample,
    data_of (run_ticks ticks quad trajectory data) = data ++ new_rows.
Proof.
  induction ticks as [| ticks IH]; intros quad trajectory data; cbn [run_ticks].
  - exists []. unfold data_of. simpl. rewrite app_nil_r. reflexivity.
  - destruct (control_propellers quad) as [quad' | |];
      try (exists []; unfold data_of; simpl; rewrite app_nil_r; reflexivity).
    destruct (record_sample quad') as [[pos_full_quad row] | |];
      try (exists []; unfold data_of; simpl; rewrite app_nil_r; reflexivity).
    destruct (IH quad' (trajectory ++ [pos_full_quad]) (data ++ [row])) as [new_rows H].
    exists (row :: new_rows). rewrite H, <- app_assoc. reflexivity.
Qed.

(** The loop only appends, one trajectory entry with each data row, at most
    one row per tick; a loop that ends normally has appended exactly one row
    per tick and advanced the clock by [ticks * dt]. *)
Theorem run_ticks_appends (ticks : nat) :
  forall (quad : Robot) (trajectory : list (list vec3)) (data : list sample),
  exists (new_points : list (list vec3)) (new_rows : list sample) (result : outcome Robot),
    run_ticks ticks quad trajectory data
    = (trajectory ++ new_points, data ++ new_rows, result)
    /\ length new_points = length new_rows
    /\ (length new_rows <= ticks)%nat
    /\ (forall final : Robot,
           result = Returns final ->
           length new_rows = ticks /\ time final = time quad + INR ticks * dt).
Proof.
  induction ticks as [| ticks IH]; intros quad trajectory data.
  - exists [], [], (Returns quad). simpl. rewrite !app_nil_r.
    split; [reflexivity |]. split; [reflexivity |]. split; [lia |].
    intros final H. injection H as <-. split; [reflexivity | ring].
  - cbn [run_ticks].
    destruct (control_propellers quad) as [quad' | |] eqn:Hstep.
    2, 3: eexists [], [], _; rewrite !app_nil_r;
      (split; [reflexivity |]); (split; [reflexivity |]); (split; [simpl; lia |]);
      intros final H; discriminate H.
    destruct (record_sample quad') as [[pos_full_quad row] | |] eqn:Hrow.
    2, 3: eexists [], [], _; rewrite !app_nil_r;
      (split; [reflexivity |]); (split; [reflexivity |]); (split; [simpl; lia |]);
      intros final H; discriminate H.
    destruct (IH quad' (trajectory ++ [pos_full_quad]) (data ++ [row]))
      as (new_points & new_rows & result & Hrun & Hlen & Hle & Hfinal).
    exists (pos_full_quad :: new_points), (row :: new_rows), result.
    rewrite Hrun, <- !app_assoc. cbn [app length].
    split; [reflexivity |]. split; [lia |]. split; [lia |].
    intros final Hres. destruct (Hfinal final Hres) as [Hn Ht].
    split; [lia |].
    apply control_propellers_step in Hstep.
    destruct Hstep as (f0 & w & _ & _ & _ & _ & Htime & _).
    rewrite Ht, Htime, S_INR. ring.
Qed.

Lemma run_ticks_rows (ticks : nat) :
  forall (quad : Robot) (trajectory : list (list vec3)) (data : list sample)
         (f0 : vec3) (w : R) (k : nat) (row : sample),
    F0 quad = Some f0 -> omega_w quad = Some w ->
    nth_error (data_of (run_ticks ticks quad trajectory data)) (length data + k) = Some row ->
    sample_wind_force row = V3.scale_r f0 (sin (w * (time quad + INR k * dt) + 0))
    /\ V4.norm (sample_quat row) = 1.
Proof.
  induction ticks as [| ticks IH]; intros quad trajectory data f0 w k row HF Hw Hnth.
  - simpl in Hnth. unfold data_of in Hnth. simpl in Hnth.
    assert (Hnone : nth_error data (length data + k) = None) by (apply nth_error_None; lia).
    rewrite Hnone in Hnth. discriminate Hnth.
  - cbn [run_ticks] in Hnth.
    assert (Hout : nth_error data (length data + k) = None) by (apply nth_error_None; lia).
    destruct (control_propellers quad) as [quad' | |] eqn:Hstep;
      try (unfold data_of in Hnth; simpl in Hnth; rewrite Hout in Hnth; discriminate Hnth).
    destruct (record_sample quad') as [[pos_full_quad row'] | |] eqn:Hrow;
      try (unfold data_of in Hnth; simpl in Hnth; rewrite Hout in Hnth; discriminate Hnth).
    apply control_propellers_step in Hstep.
    destruct Hstep as (f0' & w' & HF0 & Hw0 & HF' & Hw' & Htime & Hwind & Hunit).
    rewrite HF in HF0. injection HF0 as <-. rewrite Hw in Hw0. injection Hw0 as <-.
    apply record_sample_row in Hrow. destruct Hrow as (Hq & _ & Hwf).
    destruct k as [| k].
    + destruct (run_ticks_prefix ticks quad' (trajectory ++ [pos_full_quad]) (data ++ [row']))
        as (new_rows & Hrun).
      rewrite Hrun in Hnth.
      rewrite <- app_assoc in Hnth. rewrite Nat.add_0_r in Hnth.
      rewrite nth_error_app2 in Hnth by lia. rewrite Nat.sub_diag in Hnth.
      simpl in Hnth. injection Hnth as <-.
      rewrite Hwind in Hwf. injection Hwf as <-.
      split; [| rewrite Hq; exact Hunit].
      simpl INR. do 2 f_equal. ring.
    + replace (length data + S k)%nat with (length (data ++ [row']) + k)%nat in Hnth
        by (rewrite length_app; simpl; lia).
      destruct (IH quad' _ _ f0 w k row HF' Hw' Hnth) as [Hwfk Hn].
      split; [| exact Hn]. rewrite Hwfk, Htime. do 3 f_equal.
      rewrite S_INR. ring.
Qed.

Lemma run_ticks_appends_witness :
  exists final : Robot,
    snd (run_ticks 1 (sweep_start 0 PI) [] []) = Returns final
    /\ length (data_of (run_ticks 1 (sweep_start 0 PI) [] [])) = 1%nat
    /\ time final = time (sweep_start 0 PI) + INR 1 * dt.
Proof.
  destruct (first_tick_recorded 0 PI)
    as (omegas & quad' & pos_full_quad & row & _ & _ & Hcp & Hrow & _ & _).
  destruct (run_ticks_appends 1 (sweep_start 0 PI) [] [])
    as (new_points & new_rows & result & Hrun & _ & _ & Hfinal).
  assert (Hres : result = Returns quad').
  { revert Hrun. cbn [run_ticks]. rewrite Hcp, Hrow. intros H. injection H as _ _ H.
    symmetry. exact H. }
  destruct (Hfinal quad' Hres) as [Hlen Htime].
  exists quad'. rewrite Hrun. unfold data_of. cbn [fst snd app].
  split; [exact Hres |]. split; [exact Hlen | exact Htime].
Defined.

(** ** Dataset rows *)

(** In every run of the sweep the row of tick [k] (counted from 0) records
    the wind force [(wind * sin(omega_w * k * dt), 0, 0)]: the force computed
    from the clock before that tick's step, beside the velocity and
    orientation after it.  Its size is at most that of the amplitude, and
    the recorded orientation quaternion has norm one. *)
Theorem dataset_row_wind_orientation (ticks k : nat) (wind angular_velocity : R) (row : sample) :
  nth_error (data_of (generate_run ticks wind angular_velocity)) k = Some row ->
  sample_wind_force row = (wind * sin (angular_velocity * (INR k * dt)), 0, 0)
  /\ Rabs (wind * sin (angular_velocity * (INR k * dt))) <= Rabs wind
  /\ V4.norm (sample_quat row) = 1.
Proof.
  intros Hnth. unfold generate_run in Hnth. rewrite sweep_robot_returns in Hnth.
  destruct (run_ticks_rows ticks (sweep_start wind angular_velocity) [] []
              (wind, 0, 0) angular_velocity k row eq_refl eq_refl Hnth) as [Hwf Hn].
  split; [| split; [| exact Hn]].
  - rewrite Hwf. cbv [V3.scale_r sweep_start set_wind default_robot time].
    vec_eq (try ring). do 2 f_equal. ring.
  - rewrite Rabs_mult. rewrite <- (Rmult_1_r (Rabs wind)) at 2.
    apply Rmult_le_compat_l; [apply Rabs_pos |].
    pose proof (SIN_bound (angular_velocity * (INR k * dt))) as [Hlo Hhi].
    apply Rabs_le. lra.
Qed.

Lemma dataset_row_wind_orientation_witness :
  exists row : sample,
    nth_error (data_of (generate_run 1 2 PI)) 0 = Some row
    /\ sample_wind_force row = (2 * sin (PI * (INR 0 * dt)), 0, 0)
    /\ V4.norm (sample_quat row) = 1.
Proof.
  destruct (first_tick_recorded 2 PI)
    as (omegas & quad' & pos_full_quad & row & _ & _ & _ & _ & Hrun & _).
  assert (Hnth : nth_error (data_of (generate_run 1 2 PI)) 0 = Some row)
    by (rewrite Hrun; reflexivity).
  destruct (dataset_row_wind_orientation 1 0 2 PI row Hnth) as (Hwf & _ & Hn).
  exists row. split; [exact Hnth |]. split; [exact Hwf | exact Hn].
Defined.

(** ** Animation front end *)

Lemma default_robot_control_returns (p_d_I : vec3) :
  V3.z p_d_I = 0 ->
  exists omegas : vec4, control default_robot p_d_I = Returns omegas.
Proof.
  intros Hz. destruct p_d_I as [[x y] z]. simpl in Hz. subst z.
  assert (Hfz : V3.z (desired_force default_robot (x, y, 0)) = 981 / 100).
  { cbv [desired_force default_robot state state_pos state_vel reset_state_and_input m
           V3.scale V3.sub V3.add V3.z]. lra. }
  destruct (control_returns default_robot (x, y, 0))
    as (Rot & f_hat & q_ref & squares & _ & _ & _ & _ & Hc).
  - exact default_robot_regular.
  - simpl. unfold V4.zero. intros H. injection H as H. lra.
  - intros H. rewrite H in Hfz. simpl in Hfz. lra.
  - intros (k & Hk & H). rewrite H in Hfz. simpl in Hfz. lra.
  - eexists. exact Hc.
Qed.

(** A vehicle whose wind attributes were never assigned cannot be driven by
    [control_propellers]: no call returns.  In particular the first frame of
    [main], which constructs [Robot()] and assigns neither [F0] nor
    [omega_w], raises [AttributeError] in [update_wind]. *)
Theorem control_propellers_needs_wind :
  (forall quad : Robot,
      F0 quad = None \/ omega_w quad = None ->
      ~ exists quad' : Robot, control_propellers quad = Returns quad')
  /\ main_first_frame = Raises AttributeError.
Proof.
  split.
  - intros quad Hattr (quad' & H). apply control_propellers_step in H.
    destruct H as (f0 & w & HF & Hw & _). destruct Hattr as [Hn | Hn]; congruence.
  - unfold main_first_frame. rewrite Robot_init_returns, bind_returns.
    unfold control_loop, PLAYBACK_SPEED. cbn [repeat_control_propellers].
    unfold control_propellers.
    destruct (default_robot_control_returns
                (cos (2 * PI * time default_robot / (15 / 10) / 2),
                 sin (2 * PI * time default_robot / (15 / 10)), 0) eq_refl)
      as [omegas Hc].
    rewrite Hc, bind_returns. unfold update_wind.
    change (state_quat (state default_robot)) with (1, 0, 0, 0).
    rewrite rotation_matrix_identity. reflexivity.
Qed.

Lemma control_propellers_needs_wind_witness :
  F0 default_robot = None
  /\ ~ exists quad' : Robot, control_propellers default_robot = Returns quad'.
Proof.
  split; [reflexivity |].
  exact (proj1 control_propellers_needs_wind default_robot (or_introl eq_refl)).
Defined.
